(** * VeriFlow client: job polling, progress streaming, job start, URL check

    A shallow embedding of the job-handling code of the VeriFlow front end:

    - [isValidUrl], [pollJobCompletion], [fetchArticleFromUrl],
      [getLastFetchedCredibility], [handleAnalyze] and the dispatch and the
      error branch of [processContent] from static/js/app.js;
    - [streamJobProgress] and the [run...] pipeline functions, from the
      answer of their start request on, with the [stream...Progress]
      functions they await, from static/js/api.js.

    The code is event driven.  Promises, timers and event handlers are
    modelled by explicit state passing: a handler is a function from the
    state before the event to the state after it. *)

From Stdlib Require Import ZArith Lia.
From stdpp Require Import base option list strings gmap pretty.

Set Warnings "-register-all".
Local Open Scope string_scope.
Local Open Scope Z_scope.

(** ** JavaScript values *)

Module JS.

(** Values obtained from [JSON.parse].  Numbers are the integer-valued ones
    of the safe range, which print in plain decimal; an object is its list
    of properties, each key occurring once.  [undefined] -- the value of a
    property that is not there -- is [None] in [option json]. *)
Inductive json : Type :=
| JNull
| JBool (b : bool)
| JNum (n : Z)
| JStr (s : string)
| JArr (items : list json)
| JObj (props : list (string * json)).

Abbreviation value := (option json).
Abbreviation undefined := (@None json).

Fixpoint assoc (k : string) (props : list (string * json)) : value :=
  match props with
  | [] => None
  | (k', v) :: rest => if String.eqb k k' then Some v else assoc k rest
  end.

(** [d.k] for a [d] that is not [null]: primitives and arrays have none of
    the properties the client reads. *)
Definition get (k : string) (d : json) : value :=
  match d with
  | JObj props => assoc k props
  | _ => None
  end.

(** ToBoolean. *)
Definition truthy (v : value) : bool :=
  match v with
  | None => false
  | Some JNull => false
  | Some (JBool b) => b
  | Some (JNum n) => negb (n =? 0)
  | Some (JStr s) => negb (String.eqb s "")
  | Some (JArr _) => true
  | Some (JObj _) => true
  end.

(** ToString, as applied by template literals and by [new Error(v)].
    [Array.prototype.join] prints [null] elements as the empty string.
    This is ToString on the values of [json] as described above (numbers
    that print in plain decimal) whose objects have no [toString] property
    of their own; such a property, which in parsed JSON is never a function,
    leaves the object without a primitive form, ToString throws a TypeError
    for it, and it is outside the model. *)
Fixpoint to_string (j : json) : string :=
  match j with
  | JNull => "null"
  | JBool true => "true"
  | JBool false => "false"
  | JNum n => pretty n
  | JStr s => s
  | JArr items =>
      let item (x : json) : string :=
        match x with JNull => "" | _ => to_string x end in
      (fix join (l : list json) : string :=
         match l with
         | [] => ""
         | [x] => item x
         | x :: rest => item x +:+ "," +:+ join rest
         end) items
  | JObj _ => "[object Object]"
  end.

(** [v || dflt] followed by ToString, for a string literal [dflt]. *)
Definition or_default (v : value) (dflt : string) : string :=
  match v with
  | Some j => if truthy v then to_string j else dflt
  | None => dflt
  end.

(** [v === 'lit'] for a string literal. *)
Definition is_str (lit : string) (v : value) : bool :=
  match v with
  | Some (JStr s) => String.eqb s lit
  | _ => false
  end.

(** [hay.includes(needle)].  Strings are byte sequences (UTF-8); for the
    ASCII needles of the client this is the same search as on UTF-16. *)
Fixpoint includes (needle hay : string) : bool :=
  String.prefix needle hay ||
  match hay with
  | EmptyString => false
  | String _ rest => includes needle rest
  end.

(** An exception object: the name of its constructor and its message. *)
Record Error : Type := mkErr { name : string; message : string }.

(** [new Error(msg)]. *)
Definition new_Error (msg : string) : Error := mkErr "Error" msg.

(** Reading a property of [null] raises a TypeError (message as in V8). *)
Definition null_property (k : string) : Error :=
  mkErr "TypeError"
        ("Cannot read properties of null (reading '" +:+ k +:+ "')").

(** How a promise stands. *)
Inductive promise : Type :=
| Pending
| Resolved (v : value)
| Rejected (e : Error).

Definition settled (p : promise) : bool :=
  match p with Pending => false | _ => true end.

End JS.
Import JS.

(** ** URL validation (app.js, [isValidUrl]) *)

Section UrlValidation.

(** The platform's URL records; [protocol] is the scheme followed by a
    colon. *)
Record URL : Type := { protocol : string; rest_of_url : string }.

(** [new URL(string)]: the parsed record, or the TypeError it throws. *)
Variable URL_constructor : string -> Error + URL.

(** The function returns a boolean on the normal path and on the [catch]
    path; [inl] would be an exception leaving it, which no path produces. *)
Definition isValidUrl (s : string) : Error + bool :=
  match URL_constructor s with
  | inr url =>
      inr (String.eqb (protocol url) "http:" || String.eqb (protocol url) "https:")
  | inl _ => inr false
  end.

End UrlValidation.

(** ** Polling a job (app.js, [pollJobCompletion]) *)

Module Poll.

(** What [await fetch(...)] followed by [await response.json()] gives: an
    exception (network failure, body that is not JSON) or the parsed body. *)
Inductive fetched : Type :=
| Throws (e : Error)
| Body (job : json).

(** The backend's answer to one poll and the time, in ms, it took.  Every
    request is answered: the code puts no time limit on [fetch], and a
    request that never settles would leave the poll pending for good; such
    a run has no counterpart here. *)
Record reply : Type := { latency : N; outcome : fetched }.

(** What the clock and the callback see while the loop runs. *)
Record world : Type := mkWorld {
  now : Z;                 (* Date.now() *)
  polls : nat;             (* requests sent so far *)
  delivered : list json;   (* arguments of the onProgress calls, in order *)
  sleeps : list Z          (* delays passed to setTimeout, in order *)
}.

Definition pollInterval : Z := 1000.

(** How one pass through the [try] block ends. *)
Inductive pass : Type :=
| Return (v : value)
| Throw (e : Error)
| Wait.

(** [if (job.error && !job.status) throw new Error(job.error)]. *)
Definition transport_error (job : json) : option Error :=
  match get "error" job with
  | Some e =>
      if truthy (Some e) && negb (truthy (get "status" job))
      then Some (new_Error (to_string e))
      else None
  | None => None
  end.

(** [job.progress_log[job.progress_log.length - 1]] when the log is a
    non-empty array, which is how the backend writes it.  Other shapes with
    a [length] property (strings, objects) are outside the model. *)
Definition last_progress (job : json) : option json :=
  match get "progress_log" job with
  | Some (JArr log) => last log
  | _ => None
  end.

(** The call [onProgress(lastProgress)], made when a callback was given
    and the log is not empty. *)
Definition progress_calls (onProgress : bool) (job : json) : list json :=
  if onProgress
  then match last_progress job with Some p => [p] | None => [] end
  else [].

(** The [try] block from the parsed body to the wait: the values handed
    to [onProgress] and how the pass ends. *)
Definition try_body (onProgress : bool) (r : fetched) : list json * pass :=
  match r with
  | Throws e => ([], Throw e)
  | Body JNull => ([], Throw (null_property "error"))
  | Body job =>
      match transport_error job with
      | Some e => ([], Throw e)
      | None =>
          let calls := progress_calls onProgress job in
          let status := get "status" job in
          if is_str "completed" status then (calls, Return (get "result" job))
          else if is_str "failed" status
          then (calls, Throw (new_Error (or_default (get "error" job) "Job failed")))
          else if is_str "cancelled" status
          then (calls, Throw (new_Error "Job was cancelled"))
          else (calls, Wait)
      end
  end.

(** The [catch] block. *)
Definition catch_block (error : Error) : Error :=
  if includes "Job not found" (message error)
  then new_Error "Job expired or not found"
  else error.

Section Loop.

Variable backend : nat -> reply.   (* the answer to the i-th request *)
Variable onProgress : bool.        (* was a callback given? *)
Variable maxWaitMs : Z.
Variable startTime : Z.

(** The request of a pass: the clock moves by the time the answer took,
    and [onProgress] has received [calls]. *)
Definition after_request (calls : list json) (w : world) : world :=
  mkWorld (now w + Z.of_N (latency (backend (polls w)))) (S (polls w))
          (delivered w ++ calls) (sleeps w).

(** [await new Promise(resolve => setTimeout(resolve, pollInterval))]; the
    timer is taken to fire when it is due. *)
Definition after_wait (w : world) : world :=
  mkWorld (now w + pollInterval) (polls w) (delivered w)
          (sleeps w ++ [pollInterval]).

(** The [while] loop; [None] only when [fuel] runs out. *)
Fixpoint loop (fuel : nat) (w : world) : option (promise * world) :=
  match fuel with
  | O => None
  | S fuel' =>
      if now w - startTime <? maxWaitMs then
        let '(calls, p) := try_body onProgress (outcome (backend (polls w))) in
        match p with
        | Return v => Some (Resolved v, after_request calls w)
        | Throw e => Some (Rejected (catch_block e), after_request calls w)
        | Wait => loop fuel' (after_wait (after_request calls w))
        end
      else Some (Rejected (new_Error "Timeout waiting for job completion"), w)
  end.

(** Every pass that waits moves the clock by at least [pollInterval], so
    this many passes reach the deadline. *)
Definition enough : nat := Z.to_nat (maxWaitMs / pollInterval) + 2.

Definition pollJobCompletion : option (promise * world) :=
  loop enough (mkWorld startTime 0 [] []).

End Loop.

End Poll.

(** ** Streaming a job's progress (api.js, [streamJobProgress]) *)

Module Stream.

Definition maxReconnects : nat := 3.
Definition baseDelay : Z := 2000.

(** What the handlers of one call close over: the arguments of the call
    and the [resolve]/[reject] pair they settle.

    A reconnecting call [streamJobProgress(jobId, emoji, n + 1)] hands both
    of its outcomes to the [resolve] and [reject] of the call that scheduled
    it ([.then(resolve).catch(reject)]), and that call's channel is closed
    by then; so all calls of one chain settle the promise of the first, and
    [outer] is the index of that promise. *)
Record Closure : Type := mkClosure {
  jobId : string;
  emoji : string;
  reconnectAttempts : nat;
  outer : nat
}.

(** An [EventSource] with the closure of its two handlers. *)
Record Channel : Type := mkChannel { env : Closure; closed : bool }.

(** A [setTimeout] entry: the delay, the call it will make, and whether it
    has fired. *)
Record Timer : Type := mkTimer { delay : Z; callback : Closure; fired : bool }.

Record State : Type := mkState {
  promises : list promise;          (* promises returned to outside callers *)
  channels : list Channel;          (* every EventSource created, by number *)
  activeEventSources : list nat;    (* AppState.activeEventSources *)
  timers : list Timer;              (* every setTimeout made, by number *)
  progress : list (json * string)   (* the calls addProgress(message, type) *)
}.

Definition init : State := mkState [] [] [] [] [].

Definition addProgress (msg : json) (type : string) (st : State) : State :=
  mkState (promises st) (channels st) (activeEventSources st) (timers st)
          (progress st ++ [(msg, type)]).

(** [eventSource.close()]. *)
Definition close (c : nat) (st : State) : State :=
  mkState (promises st)
          (alter (fun ch => mkChannel (env ch) true) c (channels st))
          (activeEventSources st) (timers st) (progress st).

(** [resolve(v)] or [reject(e)]: a promise that is settled stays as it is. *)
Definition settle (p : nat) (result : promise) (st : State) : State :=
  mkState (alter (fun old => if settled old then old else result) p (promises st))
          (channels st) (activeEventSources st) (timers st) (progress st).

Definition setTimeout (cb : Closure) (ms : Z) (st : State) : State :=
  mkState (promises st) (channels st) (activeEventSources st)
          (timers st ++ [mkTimer ms cb false]) (progress st).

(** The executor's first two statements: [new EventSource(...)] and the
    push onto [AppState.activeEventSources]. *)
Definition open_channel (cl : Closure) (st : State) : State :=
  mkState (promises st)
          (channels st ++ [mkChannel cl false])
          (activeEventSources st ++ [length (channels st)])
          (timers st) (progress st).

(** A call from outside, [streamJobProgress(jobId, emoji, n)]: a fresh
    promise, number [length (promises st)], and its channel. *)
Definition streamJobProgress (jobId emoji : string) (n : nat) (st : State) : State :=
  open_channel (mkClosure jobId emoji n (length (promises st)))
    (mkState (promises st ++ [Pending]) (channels st) (activeEventSources st)
             (timers st) (progress st)).

(** The timer is taken off the timer queue. *)
Definition fire (t : nat) (st : State) : State :=
  mkState (promises st) (channels st) (activeEventSources st)
          (alter (fun x => mkTimer (delay x) (callback x) true) t (timers st))
          (progress st).

(** [eventSource.onmessage]; [data] is [JSON.parse(event.data)], [None]
    when the text is not JSON and the handler ends in a SyntaxError. *)
Definition onmessage (c : nat) (cl : Closure) (data : option json) (st : State) : State :=
  match data with
  | None => st
  | Some JNull => st    (* [data.heartbeat] on [null]: TypeError *)
  | Some d =>
      let status := get "status" d in
      if truthy (get "heartbeat" d) then st
      else if is_str "completed" status then
        settle (outer cl) (Resolved (get "result" d))
          (close c (addProgress (JStr (emoji cl +:+ " Complete!")) "info" st))
      else if is_str "failed" status then
        settle (outer cl)
          (Rejected (new_Error (or_default (get "error" d) "Job failed")))
          (close c
             (addProgress
                (JStr (emoji cl +:+ " Failed: " +:+
                       or_default (get "error" d) "Unknown error"))
                "error" st))
      else if is_str "cancelled" status then
        settle (outer cl) (Rejected (new_Error "Job cancelled by user"))
          (close c (addProgress (JStr (emoji cl +:+ " Job cancelled")) "info" st))
      else
        let st1 :=
          match get "message" d with
          | Some m => if truthy (Some m) then addProgress m "info" st else st
          | None => st
          end in
        match status with
        | Some s =>
            if truthy status && negb (truthy (get "message" d))
            then addProgress (JStr ("🔄 " +:+ to_string s)) "info" st1
            else st1
        | None => st1
        end
  end.

(** [eventSource.onerror]. *)
Definition onerror (c : nat) (cl : Closure) (st : State) : State :=
  let st := close c st in
  if (reconnectAttempts cl <? maxReconnects)%nat then
    let delay := baseDelay * 2 ^ Z.of_nat (reconnectAttempts cl) in
    setTimeout
      (mkClosure (jobId cl) (emoji cl) (reconnectAttempts cl + 1) (outer cl))
      delay
      (addProgress
         (JStr ("⚠️ Connection lost. Reconnecting in " +:+
                pretty (delay / 1000) +:+ "s..."))
         "info" st)
  else
    settle (outer cl) (Rejected (new_Error "Stream connection failed after retries"))
      (addProgress
         (JStr ("❌ Connection failed after " +:+ pretty maxReconnects +:+ " attempts"))
         "error" st).

(** What the browser and the callers do. *)
Inductive event : Type :=
| Call (jobId emoji : string)             (* streamJobProgress(jobId, emoji) *)
| Message (c : nat) (data : option json)  (* a message event on channel c *)
| Failure (c : nat)                       (* an error event on channel c *)
| Timeout (t : nat).                      (* timer t is due *)

(** A closed [EventSource] dispatches nothing, and a timer fires once. *)
Definition step (st : State) (e : event) : State :=
  match e with
  | Call j em => streamJobProgress j em 0 st
  | Message c data =>
      match channels st !! c with
      | Some ch => if closed ch then st else onmessage c (env ch) data st
      | None => st
      end
  | Failure c =>
      match channels st !! c with
      | Some ch => if closed ch then st else onerror c (env ch) st
      | None => st
      end
  | Timeout t =>
      match timers st !! t with
      | Some tm =>
          if fired tm then st else open_channel (callback tm) (fire t st)
      | None => st
      end
  end.

Definition run (st : State) (es : list event) : State := fold_left step es st.

(** The message events that deliver the frames [ds] on channel [c]. *)
Definition frames (c : nat) (ds : list json) : list event :=
  map (fun d => Message c (Some d)) ds.

(** A call made in state [st] whose channels all fail: the channel of the
    call and the three reopened ones deliver the frames [ds0] .. [ds3], then
    get an error event, and each timer that was armed fires. *)
Definition failing_call (st : State) (jobId emoji : string)
    (ds0 ds1 ds2 ds3 : list json) : list event :=
  let c := length (channels st) in
  let t := length (timers st) in
  Call jobId emoji ::
  frames c ds0 ++ [Failure c; Timeout t] ++
  frames (c + 1) ds1 ++ [Failure (c + 1); Timeout (t + 1)] ++
  frames (c + 2) ds2 ++ [Failure (c + 2); Timeout (t + 2)] ++
  frames (c + 3) ds3 ++ [Failure (c + 3)].

(** *** What holds of every state the client can be in *)

(** Channel [c] is open, and its handlers close over [cl]. *)
Definition listening (st : State) (c : nat) (cl : Closure) : Prop :=
  channels st !! c = Some (mkChannel cl false).

(** Timer [t] has not fired, and will make the call [cl]. *)
Definition armed (st : State) (t : nat) (cl : Closure) : Prop :=
  exists ms, timers st !! t = Some (mkTimer ms cl false).

Definition pending (st : State) (p : nat) : Prop :=
  promises st !! p = Some Pending.

(** A promise that has an open channel or an armed timer is pending, and
    it has one of the two only. *)
Record chain_invariant (st : State) : Prop := mkInv {
  inv_listening : forall c cl, listening st c cl -> pending st (outer cl);
  inv_armed : forall t cl, armed st t cl -> pending st (outer cl);
  inv_one_channel : forall c c' cl cl',
    listening st c cl -> listening st c' cl' -> outer cl = outer cl' -> c = c';
  inv_one_timer : forall t t' cl cl',
    armed st t cl -> armed st t' cl' -> outer cl = outer cl' -> t = t';
  inv_channel_or_timer : forall c t cl cl',
    listening st c cl -> armed st t cl' -> outer cl <> outer cl'
}.

(** Promise [p] has neither an open channel nor an armed timer. *)
Definition idle (st : State) (p : nat) : Prop :=
  (forall c cl, listening st c cl -> outer cl <> p) /\
  (forall t cl, armed st t cl -> outer cl <> p).

(** The three statuses that end a job. *)
Definition terminal (status : value) : bool :=
  is_str "completed" status || is_str "failed" status || is_str "cancelled" status.

(** Modelled from the spec: [AppState.closeAllStreams] is defined in
    config.js, which is not among the sources.  Section 4.4: it closes
    every tracked channel and empties the registry, whether or not the
    promises have settled. *)
Definition closeAllStreams (st : State) : State :=
  mkState (promises st)
          (fold_left
             (fun chs c => alter (fun ch => mkChannel (env ch) true) c chs)
             (activeEventSources st) (channels st))
          [] (timers st) (progress st).

End Stream.

(** ** Starting a job (api.js, the [run...] functions; app.js,
       [fetchArticleFromUrl]) *)

Module Launch.

(** How the start request ends: [fetch] rejects, or a response arrives whose
    body [response.json()] parses or rejects. *)
Inductive http : Type :=
| NetworkError (e : Error)
| Response (ok : bool) (body : Error + json).

(** The six pipelines of api.js. *)
Inductive pipeline : Type :=
| LLMVerification | FactCheck | KeyClaims | BiasCheck | LieDetection | Manipulation.

(** The property of [AppState.currentJobIds] a pipeline writes. *)
Definition slot (k : pipeline) : string :=
  match k with
  | LLMVerification => "llmVerification"
  | FactCheck => "factCheck"
  | KeyClaims => "keyClaims"
  | BiasCheck => "biasCheck"
  | LieDetection => "lieDetection"
  | Manipulation => "manipulation"
  end.

(** The message used when a refused start carries no [error] text. *)
Definition start_failure (k : pipeline) : string :=
  match k with
  | LLMVerification => "LLM verification failed"
  | FactCheck => "Fact check failed"
  | KeyClaims => "Key claims check failed"
  | BiasCheck => "Bias check failed"
  | LieDetection => "Lie detection failed"
  | Manipulation => "Manipulation check failed"
  end.

(** The emoji handed to [streamJobProgress]. *)
Definition stream_emoji (k : pipeline) : string :=
  match k with
  | LLMVerification => "🔍"
  | FactCheck => "🔎"
  | KeyClaims => "🎯"
  | BiasCheck => "📊"
  | LieDetection => "🕵️"
  | Manipulation => "🎭"
  end.

(** The prefix of the progress line written by the [catch] block. *)
Definition catch_label (k : pipeline) : string :=
  match k with
  | LLMVerification => "❌ LLM verification failed: "
  | FactCheck => "❌ Fact check failed: "
  | KeyClaims => "❌ Key claims analysis failed: "
  | BiasCheck => "❌ Bias analysis failed: "
  | LieDetection => "❌ Lie detection failed: "
  | Manipulation => "❌ Manipulation analysis failed: "
  end.

(** [`${v}`] for a value that may be [undefined]. *)
Definition template (v : value) : string :=
  match v with Some j => to_string j | None => "undefined" end.

(** The client's shared state as far as a start touches it. *)
Record AppState : Type := mkApp {
  currentJobIds : gmap string value;
  streams : Stream.State
}.

(** A [run...] function from the response of its start request to the
    opening of the stream, with its [catch] block: the exception it
    rethrows, if any, and the state it leaves. *)
Definition run_start (k : pipeline) (r : http) (app : AppState) : option Error * AppState :=
  let caught (e : Error) :=
    (Some e,
     mkApp (currentJobIds app)
           (Stream.addProgress (JStr (catch_label k +:+ message e)) "error"
                               (streams app))) in
  match r with
  | NetworkError e => caught e
  | Response _ (inl e) => caught e
  | Response false (inr JNull) => caught (null_property "error")
  | Response false (inr error) =>
      caught (new_Error (or_default (get "error" error) (start_failure k)))
  | Response true (inr JNull) => caught (null_property "job_id")
  | Response true (inr data) =>
      let job_id := get "job_id" data in
      (None,
       mkApp (<[slot k := job_id]> (currentJobIds app))
             (Stream.streamJobProgress (template job_id) (stream_emoji k) 0
                                       (streams app)))
  end.

(** [fetchArticleFromUrl] from the response of its start request to the
    call of [pollJobCompletion]: the job id to poll, or the exception. *)
Definition fetch_start (r : http) : Error + value :=
  match r with
  | NetworkError e => inl e
  | Response _ (inl e) => inl e
  | Response false (inr JNull) => inl (null_property "error")
  | Response false (inr error) =>
      inl (new_Error
             (or_default
                (if truthy (get "error" error) then get "error" error
                 else get "message" error)
                "Failed to start fetch"))
  | Response true (inr JNull) => inl (null_property "job_id")
  | Response true (inr startData) =>
      let jobId := get "job_id" startData in
      if truthy jobId then inr jobId else inl (new_Error "No job ID returned")
  end.

End Launch.

(** ** Showing an error (app.js, the [catch] block of [processContent]) *)

Module App.

(** The argument of [showError], or [None] when the block shows nothing. *)
Definition processContent_catch (error : Error) : option string :=
  if negb (includes "cancelled" (message error)) &&
     negb (includes "stopped" (message error))
  then Some (if String.eqb (message error) ""
             then "An unexpected error occurred. Please try again."
             else message error)
  else None.

End App.

(** ** Sample inputs *)

Module Samples.

Definition record (status : string) : json := JObj [("status", JStr status)].

(** The payload [{success: true, content: "X"}]. *)
Definition payload : json := JObj [("success", JBool true); ("content", JStr "X")].

(** A backend that answers in 20 ms: [running] three times, then
    [completed] with [payload]. *)
Definition slow_job (i : nat) : Poll.reply :=
  if (i <? 3)%nat
  then Poll.Build_reply 20 (Poll.Body (record "running"))
  else Poll.Build_reply 20
         (Poll.Body (JObj [("status", JStr "completed"); ("result", payload)])).



(** A job record with an error text, no status, and two log entries. *)
Definition broken_with_log : json :=
  JObj [("error", JStr "Internal server error");
        ("progress_log", JArr [JStr "fetching"; JStr "parsing"])].

(** A backend that answers every poll with [broken_with_log]. *)
Definition breaking (i : nat) : Poll.reply :=
  Poll.Build_reply 20 (Poll.Body broken_with_log).

(** One call of [streamJobProgress] whose channels all fail: the first
    channel and the three reopened ones each get an error event, and each
    timer fires. *)
Definition always_failing (jobId emoji : string) : list Stream.event :=
  [Stream.Call jobId emoji;
   Stream.Failure 0; Stream.Timeout 0;
   Stream.Failure 1; Stream.Timeout 1;
   Stream.Failure 2; Stream.Timeout 2;
   Stream.Failure 3].

Definition frame (fields : list (string * json)) : option json := Some (JObj fields).

Definition heartbeat : option json := frame [("heartbeat", JBool true)].

Definition completed_frame : option json :=
  frame [("status", JStr "completed"); ("result", payload)].

Definition cancelled_frame : option json := frame [("status", JStr "cancelled")].

Definition failed_frame (text : string) : option json :=
  frame [("status", JStr "failed"); ("error", JStr text)].

End Samples.

(** ** More sample inputs *)

Module Cases.

(** A job record that is still running, with a two-entry progress log. *)
Definition running_with_log : json :=
  JObj [("status", JStr "running");
        ("progress_log", JArr [JStr "queued"; JStr "scraping"])].

(** A backend that answers every poll, after 250 ms, with
    [running_with_log]. *)
Definition never_ending (i : nat) : Poll.reply :=
  Poll.Build_reply 250 (Poll.Body running_with_log).

(** A text of 120 characters. *)
Definition article_text : string :=
  "0123456789012345678901234567890123456789" +:+
  "0123456789012345678901234567890123456789" +:+
  "0123456789012345678901234567890123456789".

(** A scraped article with its credibility and no [content_length]. *)
Definition article_without_length : json :=
  JObj [("success", JBool true); ("content", JStr article_text);
        ("credibility", JObj [("tier", JNum 2)])].

(** The same with its [content_length]. *)
Definition article_with_length : json :=
  JObj [("success", JBool true); ("content", JStr article_text);
        ("content_length", JNum 120);
        ("credibility", JObj [("tier", JNum 2)])].

(** A backend whose job is completed, with result [r], at the first
    request. *)
Definition scraped (r : json) (i : nat) : Poll.reply :=
  Poll.Build_reply 20
    (Poll.Body (JObj [("status", JStr "completed"); ("result", r)])).

End Cases.

(** ** Polling: when the requests go out *)

Module Schedule.

(** The clock when request [i] is sent: [i] requests came before it, and
    each was followed by a wait of [pollInterval]. *)
Fixpoint sent_at (backend : nat -> Poll.reply) (startTime : Z) (i : nat) : Z :=
  match i with
  | O => startTime
  | S j =>
      sent_at backend startTime j + Z.of_N (Poll.latency (backend j))
      + Poll.pollInterval
  end.

End Schedule.

(** ** Streaming: what is live, and calls that reconnect *)

Module Live.

Import Stream.

(** The open channels whose handlers settle promise [p]. *)
Definition open_channels (p : nat) (st : State) : list Channel :=
  List.filter (fun ch => negb (closed ch) && Nat.eqb (outer (env ch)) p)
              (channels st).

(** The timers not yet fired whose call will settle promise [p]. *)
Definition armed_timers (p : nat) (st : State) : list Timer :=
  List.filter (fun tm => negb (fired tm) && Nat.eqb (outer (callback tm)) p)
              (timers st).

(** [n] times: channel [c], [c + 1], ... fails and the timer this arms,
    [t], [t + 1], ..., fires. *)
Fixpoint rounds (n c t : nat) : list event :=
  match n with
  | O => []
  | S n' => Failure c :: Timeout t :: rounds n' (S c) (S t)
  end.

(** A call made in state [st] that loses its connection [n] times in a
    row and then receives [data] on the channel open at that moment. *)
Definition reconnecting_call (st : State) (jobId emoji : string) (n : nat)
    (data : option json) : list event :=
  Call jobId emoji ::
  rounds n (length (channels st)) (length (timers st)) ++
  [Message (length (channels st) + n) data].

End Live.

(** ** A pipeline from the answer of its start request to its end
       (api.js, the [run...] and [stream...Progress] functions; app.js,
       [processContent] and [displayCombinedResults]) *)

Module Pipeline.

Import Launch.

(** The property of [AppState] in which a pipeline stores its result. *)
Definition results_slot (k : pipeline) : string :=
  match k with
  | LLMVerification => "currentLLMVerificationResults"
  | FactCheck => "currentFactCheckResults"
  | KeyClaims => "currentKeyClaimsResults"
  | BiasCheck => "currentBiasResults"
  | LieDetection => "currentLieDetectionResults"
  | Manipulation => "currentManipulationResults"
  end.

(** The progress line a [stream...Progress] function writes at its end. *)
Definition completed_line (k : pipeline) : string :=
  match k with
  | LLMVerification => "✅ LLM interpretation verification completed"
  | FactCheck => "✅ Fact checking completed"
  | KeyClaims => "✅ Key claims analysis completed"
  | BiasCheck => "✅ Bias analysis completed"
  | LieDetection => "✅ Lie detection analysis completed"
  | Manipulation => "✅ Manipulation analysis completed"
  end.

(** [AppState] with the result properties. *)
Record Session : Type := mkSession {
  app : AppState;
  results : gmap string value
}.

(** [await] on promise [p]: the function resumes right after the event
    that settles [p], in the state that event left; the events that come
    later are handed back.  [None]: [p] is still pending when the events
    end, or is no promise. *)
Fixpoint await (p : nat) (st : Stream.State) (es : list Stream.event) {struct es}
    : option (promise * Stream.State * list Stream.event) :=
  match Stream.promises st !! p with
  | Some Pending =>
      match es with
      | [] => None
      | e :: es' => await p (Stream.step st e) es'
      end
  | Some r => Some (r, st, es)
  | None => None
  end.

(** A [run...] function from the answer of its start request on, with the
    [stream...Progress] function it awaits: the exception it throws, if
    any, the state it leaves and the events not yet seen.  [None]: it is
    still waiting when the events end. *)
Definition run_pipeline (k : pipeline) (r : http) (es : list Stream.event)
    (s : Session) : option (option Error * Session * list Stream.event) :=
  let p := length (Stream.promises (streams (app s))) in
  match run_start k r (app s) with
  | (Some e, app1) => Some (Some e, mkSession app1 (results s), es)
  | (None, app1) =>
      match await p (streams app1) es with
      | Some (Resolved result, st, rest) =>
          Some (None,
                mkSession
                  (mkApp (currentJobIds app1)
                         (Stream.addProgress (JStr (completed_line k)) "info" st))
                  (<[results_slot k := result]> (results s)),
                rest)
      | Some (Rejected error, st, rest) =>
          Some (Some error,
                mkSession
                  (mkApp (currentJobIds app1)
                         (Stream.addProgress
                            (JStr (catch_label k +:+ message error)) "error" st))
                  (results s),
                rest)
      | _ => None
      end
  end.

(** The pipeline [processContent] runs for a type. *)
Definition pipeline_of (type : string) : option pipeline :=
  if String.eqb type "html" then Some LLMVerification
  else if String.eqb type "text" then Some FactCheck
  else if String.eqb type "key-claims" then Some KeyClaims
  else if String.eqb type "bias" then Some BiasCheck
  else if String.eqb type "lie-detection" then Some LieDetection
  else if String.eqb type "manipulation" then Some Manipulation
  else None.

(** The tab [displayCombinedResults] switches to for a type; [None] is its
    [default] case, which only logs 'Unknown result type'. *)
Definition result_tab (type : string) : option string :=
  if String.eqb type "html" then Some "fact-check"
  else if String.eqb type "text" then Some "fact-check"
  else if String.eqb type "key-claims" then Some "key-claims"
  else if String.eqb type "bias" then Some "bias-analysis"
  else if String.eqb type "lie-detection" then Some "lie-detection"
  else if String.eqb type "manipulation" then Some "manipulation"
  else None.

(** What the user is left with when [processContent] ends. *)
Inductive ending : Type :=
| ResultsShown (tab : option string)   (* displayCombinedResults(type) *)
| ErrorShown (text : string)           (* showError(text) *)
| NothingShown.                        (* the catch block shows nothing *)

(** [processContent] after the pipeline it awaited. *)
Definition processContent_end (type : string) (thrown : option Error) : ending :=
  match thrown with
  | None => ResultsShown (result_tab type)
  | Some error =>
      match App.processContent_catch error with
      | Some text => ErrorShown text
      | None => NothingShown
      end
  end.

(** Frames that carry a message and nothing else. *)
Definition message_frames (ms : list json) : list json :=
  map (fun m => JObj [("message", m)]) ms.

End Pipeline.

(** ** Fetching an article (app.js, [fetchArticleFromUrl]) *)

Module Article.

(** Reading a property of [undefined] (message as in V8). *)
Definition undefined_property (k : string) : Error :=
  mkErr "TypeError"
        ("Cannot read properties of undefined (reading '" +:+ k +:+ "')").

(** Calling a method the value does not have (message as in V8). *)
Definition not_a_function (expression : string) : Error :=
  mkErr "TypeError" (expression +:+ " is not a function").

(** What the function does to the page. *)
Inductive ui : Type :=
| Status (type : string) (message : json)   (* showUrlStatus(type, message, ...) *)
| Metadata (card : bool).   (* displayArticleMetadata: the old card goes,
                               and a new one is made or not *)

(** The object the function returns. *)
Record returned : Type := mkReturned {
  content : value; title : value; url : value;
  author : value; publicationDate : value; publicationDateRaw : value;
  publicationName : value; articleType : value; section : value;
  confidence : value; credibility : value; domain : value
}.

(** The callback handed to [pollJobCompletion]. *)
Definition on_progress (progress : json) : list ui :=
  if truthy (Some progress) && truthy (get "message" progress)
  then match get "message" progress with
       | Some m => [Status "loading" m]
       | None => []
       end
  else [].

(** The double quote. *)
Definition quote : string := String (Ascii.ascii_of_nat 34) "".

Section Fetch.

(** String methods of the platform, which count in UTF-16 units:
    [s.trim()], [s.length], [s.substring(0, 40)]; and
    [v.toLocaleString()] for a [v] that is neither [null] nor
    [undefined]. *)
Variable trim : string -> string.
Variable utf16_length : string -> Z.
Variable substring_0_40 : string -> string.
Variable toLocaleString : json -> Error + string.

(** Steps 3 and after, for the result [r] of the job: the exception or the
    returned object, the new [lastFetchedArticle], what the page shows. *)
Definition present (r : json) (lastFetchedArticle : value)
    : (Error + returned) * value * list ui :=
  let thrown e := (inl e, lastFetchedArticle, []) in
  let thrown_late e := (inl e, Some r, []) in
  let insufficient :=
    new_Error "Could not extract sufficient content from the URL" in
  if negb (truthy (get "success" r))
  then thrown (new_Error (or_default (get "error" r) "Failed to fetch article"))
  else
    match get "content" r with
    | Some (JStr s) =>
        if String.eqb s "" || (utf16_length (trim s) <? 100)
        then thrown insufficient
        else
          (* lastFetchedArticle = result *)
          match get "content_length" r with
          | None => thrown_late (undefined_property "toLocaleString")
          | Some JNull => thrown_late (null_property "toLocaleString")
          | Some n =>
              match toLocaleString n with
              | inl e => thrown_late e
              | inr charCount =>
                  let msg1 := "Fetched " +:+ charCount +:+ " characters" in
                  let with_title :=
                    match get "title" r with
                    | Some t =>
                        if truthy (Some t) then
                          match t with
                          | JStr t =>
                              inr (msg1 +:+ " from " +:+ quote +:+
                                   substring_0_40 t +:+
                                   (if 40 <? utf16_length t then "..." else "") +:+
                                   quote)
                          | _ => inl (not_a_function "result.title.substring")
                          end
                        else inr msg1
                    | None => inr msg1
                    end in
                  match with_title with
                  | inl e => thrown_late e
                  | inr msg2 =>
                      let successMsg :=
                        match get "author" r with
                        | Some a =>
                            if truthy (Some a) then msg2 +:+ " by " +:+ to_string a
                            else msg2
                        | None => msg2
                        end in
                      let rich :=
                        truthy (get "title" r) || truthy (get "author" r) ||
                        truthy (get "publication_date" r) ||
                        truthy (get "credibility" r) in
                      let card :=
                        truthy (get "title" r) || truthy (get "author" r) ||
                        truthy (get "credibility" r) in
                      (inr (mkReturned
                              (get "content" r) (get "title" r) (get "url" r)
                              (get "author" r) (get "publication_date" r)
                              (get "publication_date_raw" r)
                              (get "publication_name" r) (get "article_type" r)
                              (get "section" r) (get "metadata_confidence" r)
                              (get "credibility" r) (get "domain" r)),
                       Some r,
                       Status "success" (JStr successMsg)
                         :: (if rich then [Metadata card] else []))
                  end
              end
          end
    | Some c =>
        if truthy (Some c)
        then thrown (not_a_function "result.content.trim")
        else thrown insufficient
    | None => thrown insufficient
    end.

(** The whole function: [start] is how the start request ends, [backend]
    answers the polls, [now] is the time at which polling starts.  [None]
    only if the poll did not settle. *)
Definition fetchArticleFromUrl (start : Launch.http) (backend : nat -> Poll.reply)
    (now : Z) (lastFetchedArticle : value)
    : option ((Error + returned) * value * list ui) :=
  let starting := Status "loading" (JStr "Starting article fetch...") in
  let scraping := Status "loading" (JStr "Scraping article content...") in
  let caught e := Status "error" (JStr (message e)) in
  match Launch.fetch_start start with
  | inl e => Some (inl e, lastFetchedArticle, [starting; caught e])
  | inr jobId =>
      match Poll.pollJobCompletion backend true 120000 now with
      | Some (Rejected e, w) =>
          Some (inl e, lastFetchedArticle,
                ([starting; scraping]
                   ++ concat (map on_progress (Poll.delivered w)) ++ [caught e])%list)
      | Some (Resolved result, w) =>
          let shown :=
            ([starting; scraping]
               ++ concat (map on_progress (Poll.delivered w)))%list in
          match result with
          | None =>
              let e := undefined_property "success" in
              Some (inl e, lastFetchedArticle, (shown ++ [caught e])%list)
          | Some JNull =>
              let e := null_property "success" in
              Some (inl e, lastFetchedArticle, (shown ++ [caught e])%list)
          | Some r =>
              match present r lastFetchedArticle with
              | (inl e, article, page) =>
                  Some (inl e, article, (shown ++ page ++ [caught e])%list)
              | (inr object, article, page) =>
                  Some (inr object, article, (shown ++ page)%list)
              end
          end
      | _ => None
      end
  end.

End Fetch.

(** [lastFetchedArticle?.credibility || null]. *)
Definition getLastFetchedCredibility (lastFetchedArticle : value) : value :=
  match lastFetchedArticle with
  | None | Some JNull => Some JNull
  | Some article =>
      if truthy (get "credibility" article) then get "credibility" article
      else Some JNull
  end.

End Article.

(** ** The analyze button (app.js, [handleAnalyze]) *)

Module Analyze.

(** What [handleAnalyze] ends up doing. *)
Inductive action : Type :=
| ShowError (text : string)              (* showError(text) *)
| PlainTextModal (pendingContent : value) (* the content is kept, the modal shown *)
| Process (content : value) (type : string)   (* processContent(content, type) *)
| NoAction.

Section HandleAnalyze.

Variable URL_constructor : string -> Error + URL.

(** [hasHTMLLinks(content)], of utils.js, as a condition. *)
Variable hasHTMLLinks : value -> bool.

(** [isValidUrl(url)] as a condition; it lets no exception out. *)
Definition valid (url : string) : bool :=
  match isValidUrl URL_constructor url with
  | inr b => b
  | inl _ => false
  end.

(** [content] and [url] are the trimmed values of the two inputs, [mode] is
    [AppState.currentMode], and [fetched] is how [fetchArticleFromUrl(url)]
    ends when it is called: the [content] of the object it returns, or the
    error it throws. *)
Definition handleAnalyze (mode content url : string) (fetched : Error + value)
    : action :=
  let fetching := negb (String.eqb url "") && valid url && String.eqb content "" in
  match (if fetching then fetched else inr (Some (JStr content))) with
  | inl error => ShowError ("Failed to fetch article: " +:+ message error)
  | inr content =>
      if negb (truthy content)
      then ShowError "Please paste some content or enter a URL to analyze."
      else if String.eqb mode "llm-output" then
        if hasHTMLLinks content then Process content "html"
        else PlainTextModal content
      else if String.eqb mode "text-factcheck" then Process content "text"
      else if String.eqb mode "key-claims" then Process content "key-claims"
      else if String.eqb mode "bias-analysis" then Process content "bias"
      else if String.eqb mode "lie-detection" then Process content "lie-detection"
      else if String.eqb mode "manipulation" then Process content "manipulation"
      else NoAction
  end.

End HandleAnalyze.

End Analyze.

(** * Properties *)

(** ** JavaScript values *)

Example to_string_array :
  to_string (JArr [JNum 1; JNull; JStr "a"; JArr [JBool true; JNum (-2)]])
  = "1,,a,true,-2".
Proof. vm_compute. reflexivity. Qed.

Example includes_examples :
  includes "cancelled" "Job cancelled by user" = true /\
  includes "Job not found" "Job expired or not found" = false.
Proof. split; reflexivity. Qed.

Lemma get_Some_not_null k d v : get k d = Some v -> d <> JNull.
Proof. intros H ->. discriminate H. Qed.

Lemma truthy_str s : truthy (Some (JStr s)) = negb (String.eqb s "").
Proof. reflexivity. Qed.

Lemma is_str_true lit v : is_str lit v = true <-> v = Some (JStr lit).
Proof.
  split.
  - destruct v as [[| | |s| |]|]; simpl; try discriminate.
    intros H. apply String.eqb_eq in H. by subst.
  - intros ->. simpl. apply String.eqb_refl.
Qed.

(** ** URL validation *)

(** C10: [isValidUrl] returns a boolean for every string and lets no
    exception out; the boolean is [true] exactly when the string parses as
    a URL whose protocol is [http:] or [https:]. *)
Theorem isValidUrl_total_exact (new_URL : string -> Error + URL) (s : string) :
  exists b : bool,
    isValidUrl new_URL s = inr b /\
    (b = true <->
     exists url, new_URL s = inr url /\
                 (protocol url = "http:" \/ protocol url = "https:")).
Proof.
  unfold isValidUrl. destruct (new_URL s) as [e|url] eqn:Hparse.
  - exists false. split; [reflexivity|]. split; [discriminate|].
    intros (url & Hurl & _). discriminate Hurl.
  - eexists. split; [reflexivity|]. rewrite orb_true_iff, !String.eqb_eq. split.
    + intros H. exists url. by split.
    + intros (url' & Hurl & H). by injection Hurl as ->.
Qed.

(** ** Polling *)

Section PollProperties.

Import Poll.

Variable backend : nat -> reply.
Variable onProgress : bool.
Variable maxWaitMs startTime : Z.

Local Abbreviation loop' := (loop backend onProgress maxWaitMs startTime).

Local Abbreviation after_request := (Poll.after_request backend).

(** One unfolding of the loop, by the way the pass ends. *)
Lemma loop_pass fuel w calls p :
  now w - startTime < maxWaitMs ->
  try_body onProgress (outcome (backend (polls w))) = (calls, p) ->
  loop' (S fuel) w =
    match p with
    | Return v => Some (Resolved v, after_request calls w)
    | Throw e => Some (Rejected (catch_block e), after_request calls w)
    | Wait => loop' fuel (after_wait (after_request calls w))
    end.
Proof.
  intros Hlt Hbody. simpl.
  apply Z.ltb_lt in Hlt. rewrite Hlt, Hbody. by destruct p.
Qed.

Lemma loop_deadline fuel w :
  maxWaitMs <= now w - startTime ->
  loop' (S fuel) w =
    Some (Rejected (new_Error "Timeout waiting for job completion"), w).
Proof.
  intros Hge. simpl.
  apply Z.ltb_ge in Hge. by rewrite Hge.
Qed.

(** More fuel does not change a result. *)
Lemma loop_more_fuel fuel fuel' w r :
  (fuel <= fuel')%nat -> loop' fuel w = Some r -> loop' fuel' w = Some r.
Proof.
  revert fuel' w. induction fuel as [|fuel IH]; intros fuel' w Hle H.
  - discriminate H.
  - destruct fuel' as [|fuel']; [lia|].
    destruct (Z.lt_ge_cases (now w - startTime) maxWaitMs) as [Hlt|Hge].
    + destruct (try_body onProgress (outcome (backend (polls w)))) as [calls p] eqn:Hbody.
      rewrite (loop_pass fuel _ _ _ Hlt Hbody) in H.
      rewrite (loop_pass fuel' _ _ _ Hlt Hbody).
      destruct p; try done. apply IH; [lia|done].
    + rewrite loop_deadline in H by done. by rewrite loop_deadline.
Qed.

(** The loop ends: each waiting pass moves the clock by a full interval. *)
Lemma loop_ends fuel w :
  maxWaitMs - (now w - startTime) <= Z.of_nat fuel * pollInterval ->
  is_Some (loop' (S fuel) w).
Proof.
  revert w. induction fuel as [|fuel IH]; intros w Hfuel.
  - rewrite loop_deadline; [eauto|]. unfold pollInterval in Hfuel. lia.
  - destruct (Z.lt_ge_cases (now w - startTime) maxWaitMs) as [Hlt|Hge].
    + destruct (try_body onProgress (outcome (backend (polls w)))) as [calls p] eqn:Hbody.
      rewrite (loop_pass _ _ _ _ Hlt Hbody).
      destruct p; eauto. apply IH. simpl. unfold pollInterval in *. lia.
    + rewrite loop_deadline; eauto.
Qed.

(** With every request answered, as [reply] has it, the loop comes to its
    end within [enough] passes. *)
Lemma pollJobCompletion_settles :
  exists p w, pollJobCompletion backend onProgress maxWaitMs startTime = Some (p, w)
              /\ settled p = true.
Proof.
  unfold pollJobCompletion, enough.
  replace (Z.to_nat (maxWaitMs / pollInterval) + 2)%nat
    with (S (Z.to_nat (maxWaitMs / pollInterval) + 1)) by lia.
  destruct (loop_ends (Z.to_nat (maxWaitMs / pollInterval) + 1)
                      (mkWorld startTime 0 [] [])) as [[p w] H].
  - simpl. unfold pollInterval.
    destruct (Z.lt_ge_cases maxWaitMs 0) as [Hneg|Hpos]; [lia|].
    pose proof (Z.div_mod maxWaitMs 1000 ltac:(lia)) as Hdm.
    pose proof (Z.mod_pos_bound maxWaitMs 1000 ltac:(lia)) as Hm.
    assert (0 <= maxWaitMs / 1000) by (apply Z.div_pos; lia).
    lia.
  - exists p, w. split; [exact H|].
    clear -H. revert H.
    generalize (S (Z.to_nat (maxWaitMs / pollInterval) + 1)).
    generalize (mkWorld startTime 0 [] []).
    intros w0 n. revert w0. induction n as [|n IH]; intros w0 H; [discriminate|].
    destruct (Z.lt_ge_cases (now w0 - startTime) maxWaitMs) as [Hlt|Hge].
    + destruct (try_body onProgress (outcome (backend (polls w0)))) as [calls q] eqn:Hbody.
      rewrite (loop_pass _ _ _ _ Hlt Hbody) in H.
      destruct q; try (by injection H as <- _). by apply IH in H.
    + rewrite loop_deadline in H by done. by injection H as <- _.
Qed.

(** Every wait of the loop is one [pollInterval] long. *)
Lemma loop_waits_fixed fuel w p w' :
  loop' fuel w = Some (p, w') ->
  Forall (fun ms => ms = pollInterval) (sleeps w) ->
  Forall (fun ms => ms = pollInterval) (sleeps w').
Proof.
  revert w. induction fuel as [|fuel IH]; intros w H Hw; [discriminate|].
  destruct (Z.lt_ge_cases (now w - startTime) maxWaitMs) as [Hlt|Hge].
  - destruct (try_body onProgress (outcome (backend (polls w)))) as [calls q] eqn:Hbody.
    rewrite (loop_pass _ _ _ _ Hlt Hbody) in H.
    destruct q; try (by injection H as _ <-).
    apply IH in H; [done|]. simpl. apply Forall_app. split; [done|].
    by repeat constructor.
  - rewrite loop_deadline in H by done. by injection H as _ <-.
Qed.

End PollProperties.

Section PollPasses.

Import Poll.

(** A job record with a non-empty [status] string is no transport error. *)
Lemma transport_error_status job s :
  get "status" job = Some (JStr s) -> s <> "" -> transport_error job = None.
Proof.
  intros Hs Hne. unfold transport_error. destruct (get "error" job); [|done].
  rewrite Hs, truthy_str. apply String.eqb_neq in Hne. rewrite Hne.
  by rewrite andb_false_r.
Qed.

Lemma try_body_running onProgress job :
  get "status" job = Some (JStr "running") ->
  try_body onProgress (Body job) = (progress_calls onProgress job, Wait).
Proof.
  intros Hs. pose proof (get_Some_not_null _ _ _ Hs) as Hnull.
  unfold try_body. rewrite (transport_error_status _ _ Hs) by done.
  rewrite Hs. by destruct job.
Qed.

Lemma try_body_completed onProgress job :
  get "status" job = Some (JStr "completed") ->
  try_body onProgress (Body job)
  = (progress_calls onProgress job, Return (get "result" job)).
Proof.
  intros Hs. pose proof (get_Some_not_null _ _ _ Hs) as Hnull.
  unfold try_body. rewrite (transport_error_status _ _ Hs) by done.
  rewrite Hs. by destruct job.
Qed.

Lemma try_body_transport_error onProgress job e :
  transport_error job = Some e -> try_body onProgress (Body job) = ([], Throw e).
Proof.
  intros He. unfold try_body. rewrite He. destruct job; try done.
Qed.

Lemma progress_calls_last job older entry :
  get "progress_log" job = Some (JArr (older ++ [entry])) ->
  progress_calls true job = [entry].
Proof.
  intros Hlog. unfold progress_calls, last_progress. by rewrite Hlog, last_snoc.
Qed.

End PollPasses.

(** C4: the loop waits [pollInterval] = 1000 ms between polls, whatever
    the backend answers.  Against a
    backend whose first three job records have status [running] and whose
    fourth has status [completed], [pollJobCompletion] resolves with the
    [result] of the fourth record after exactly three waits of 1000 ms; the
    time that has passed is those 3000 ms plus the time the four requests
    took. *)
Theorem poll_running_three_times_then_completed
    (backend : nat -> Poll.reply) (onProgress : bool) (maxWaitMs startTime : Z)
    (result : value) :
  let took i := Z.of_N (Poll.latency (backend i)) in
  (forall i, (i < 3)%nat ->
     exists job, Poll.outcome (backend i) = Poll.Body job /\
                 get "status" job = Some (JStr "running")) ->
  (exists job, Poll.outcome (backend 3%nat) = Poll.Body job /\
               get "status" job = Some (JStr "completed") /\
               get "result" job = result) ->
  3 * 1000 + took 0%nat + took 1%nat + took 2%nat < maxWaitMs ->
  Poll.pollInterval = 1000 /\
  (forall backend' onProgress' maxWaitMs' startTime' p w,
     Poll.pollJobCompletion backend' onProgress' maxWaitMs' startTime' = Some (p, w) ->
     Forall (fun ms => ms = 1000) (Poll.sleeps w)) /\
  exists w,
    Poll.pollJobCompletion backend onProgress maxWaitMs startTime
      = Some (Resolved result, w) /\
    Poll.sleeps w = [1000; 1000; 1000] /\
    Poll.polls w = 4%nat /\
    Poll.now w - startTime
      = 3 * 1000 + took 0%nat + took 1%nat + took 2%nat + took 3%nat.
Proof.
  intros took Hrun (job3 & Hb3 & Hs3 & Hr3) Hwait. subst took. cbv beta in *.
  split; [reflexivity|]. split.
  { intros backend' onProgress' maxWaitMs' startTime' p w H.
    apply (loop_waits_fixed _ _ _ _ _ _ _ _ H). constructor. }
  destruct (Hrun 0%nat ltac:(lia)) as (job0 & Hb0 & Hs0).
  destruct (Hrun 1%nat ltac:(lia)) as (job1 & Hb1 & Hs1).
  destruct (Hrun 2%nat ltac:(lia)) as (job2 & Hb2 & Hs2).
  pose proof (N2Z.is_nonneg (Poll.latency (backend 0%nat))).
  pose proof (N2Z.is_nonneg (Poll.latency (backend 1%nat))).
  pose proof (N2Z.is_nonneg (Poll.latency (backend 2%nat))).
  eexists. split.
  - unfold Poll.pollJobCompletion.
    apply (loop_more_fuel _ _ _ _ 4).
    + unfold Poll.enough, Poll.pollInterval.
      assert (3 <= maxWaitMs / 1000) by (apply Z.div_le_lower_bound; lia). lia.
    + rewrite (loop_pass _ _ _ _ _ _ (Poll.progress_calls onProgress job0) Poll.Wait); cycle 1.
      { simpl. lia. }
      { simpl. rewrite Hb0. by apply try_body_running. }
      rewrite (loop_pass _ _ _ _ _ _ (Poll.progress_calls onProgress job1) Poll.Wait); cycle 1.
      { simpl. unfold Poll.pollInterval. lia. }
      { simpl. rewrite Hb1. by apply try_body_running. }
      rewrite (loop_pass _ _ _ _ _ _ (Poll.progress_calls onProgress job2) Poll.Wait); cycle 1.
      { simpl. unfold Poll.pollInterval. lia. }
      { simpl. rewrite Hb2. by apply try_body_running. }
      rewrite (loop_pass _ _ _ _ _ _ (Poll.progress_calls onProgress job3)
                 (Poll.Return result)); cycle 1.
      { simpl. unfold Poll.pollInterval. lia. }
      { simpl. rewrite Hb3, <- Hr3. by apply try_body_completed. }
      reflexivity.
  - simpl. unfold Poll.pollInterval. repeat split; lia.
Qed.

Lemma poll_running_three_times_then_completed_witness :
  exists w,
    Poll.pollJobCompletion Samples.slow_job false 120000 0
      = Some (Resolved (Some Samples.payload), w) /\
    Poll.sleeps w = [1000; 1000; 1000] /\
    Poll.polls w = 4%nat /\
    Poll.now w - 0 = 3 * 1000 + 20 + 20 + 20 + 20.
Proof.
  apply (poll_running_three_times_then_completed
           Samples.slow_job false 120000 0 (Some Samples.payload)).
  - intros i Hi. exists (Samples.record "running").
    destruct i as [|[|[|i]]]; [split; reflexivity ..|lia].
  - eexists. repeat split; reflexivity.
  - simpl. lia.
Defined.

(** The test [job.error && !job.status], on the record itself. *)
Lemma transport_error_Some job e :
  get "error" job = Some e -> truthy (Some e) = true ->
  truthy (get "status" job) = false ->
  Poll.transport_error job = Some (new_Error (to_string e)).
Proof.
  intros He Hte Hs. unfold Poll.transport_error. by rewrite He, Hte, Hs.
Qed.

Lemma transport_error_None job :
  truthy (get "error" job) && negb (truthy (get "status" job)) = false ->
  Poll.transport_error job = None.
Proof.
  intros H. unfold Poll.transport_error.
  destruct (get "error" job) as [e|]; [|done]. by rewrite H.
Qed.

(** What [onProgress] has received is never taken back. *)
Lemma loop_delivered_prefix backend onProgress maxWaitMs startTime fuel w p w' :
  Poll.loop backend onProgress maxWaitMs startTime fuel w = Some (p, w') ->
  exists later, Poll.delivered w' = (Poll.delivered w ++ later)%list.
Proof.
  revert w. induction fuel as [|fuel IH]; intros w H; [discriminate|].
  destruct (Z.lt_ge_cases (Poll.now w - startTime) maxWaitMs) as [Hlt|Hge].
  - destruct (Poll.try_body onProgress (Poll.outcome (backend (Poll.polls w))))
      as [calls q] eqn:Hbody.
    rewrite (loop_pass _ _ _ _ _ _ _ _ Hlt Hbody) in H.
    destruct q.
    + injection H as _ <-. by exists calls.
    + injection H as _ <-. by exists calls.
    + apply IH in H as [later Hlater]. simpl in Hlater.
      exists (calls ++ later)%list. by rewrite Hlater, app_assoc.
  - rewrite loop_deadline in H by done. injection H as _ <-.
    exists []. by rewrite app_nil_r.
Qed.

(** C7, as the code has it: in a pass of the poll loop that fetched the
    job record [job],
    - if [job.error] is truthy and [job.status] is not, the whole poll fails
      at once with [Error(job.error)] (after the [catch] block): the request
      has been made, nothing is handed to [onProgress] -- whether or not
      the record has a log --, no wait follows and no further request is
      made;
    - otherwise, if a callback was given and [progress_log] is an array
      whose last entry is [entry], the pass calls [onProgress] exactly once,
      with [entry], whatever older entries the log holds: the pass ends the
      poll or goes on to wait 1000 ms, and in both cases what [onProgress]
      has received so far is what it had received before, then [entry]; and
      when the poll has ended, [entry] is still there, right after what had
      been received before the pass. *)
Theorem poll_pass_progress_and_transport_error
    (backend : nat -> Poll.reply) (maxWaitMs startTime : Z)
    (fuel : nat) (w : Poll.world) (job : json) :
  Poll.now w - startTime < maxWaitMs ->
  Poll.outcome (backend (Poll.polls w)) = Poll.Body job ->
  let asked :=
    Poll.mkWorld (Poll.now w + Z.of_N (Poll.latency (backend (Poll.polls w))))
                 (S (Poll.polls w)) in
  (forall onProgress e,
     get "error" job = Some e -> truthy (Some e) = true ->
     truthy (get "status" job) = false ->
     Poll.loop backend onProgress maxWaitMs startTime (S fuel) w
     = Some (Rejected (Poll.catch_block (new_Error (to_string e))),
             asked (Poll.delivered w) (Poll.sleeps w))) /\
  (forall older entry,
     truthy (get "error" job) && negb (truthy (get "status" job)) = false ->
     get "progress_log" job = Some (JArr (older ++ [entry])) ->
     let heard := (Poll.delivered w ++ [entry])%list in
     ((exists p,
         Poll.loop backend true maxWaitMs startTime (S fuel) w
         = Some (p, asked heard (Poll.sleeps w))) \/
      Poll.loop backend true maxWaitMs startTime (S fuel) w
      = Poll.loop backend true maxWaitMs startTime fuel
          (Poll.mkWorld
             (Poll.now w + Z.of_N (Poll.latency (backend (Poll.polls w))) + 1000)
             (S (Poll.polls w)) heard (Poll.sleeps w ++ [1000])%list)) /\
     (forall p w',
        Poll.loop backend true maxWaitMs startTime (S fuel) w = Some (p, w') ->
        exists later, Poll.delivered w' = (heard ++ later)%list)).
Proof.
  intros Hlt Hbody asked. split.
  - intros onProgress e He Hte Hs.
    rewrite (loop_pass _ _ _ _ _ _ [] (Poll.Throw (new_Error (to_string e))));
      [|done|].
    + unfold Poll.after_request, asked. by rewrite app_nil_r.
    + rewrite Hbody. apply try_body_transport_error.
      by apply transport_error_Some.
  - intros older entry Hnone Hlog heard.
    apply transport_error_None in Hnone.
    destruct (Poll.try_body true (Poll.Body job)) as [calls p] eqn:Htry.
    assert (calls = [entry]) as ->.
    { pose proof (get_Some_not_null _ _ _ Hlog) as Hnull.
      unfold Poll.try_body in Htry. rewrite Hnone in Htry.
      rewrite <- (progress_calls_last _ _ _ Hlog).
      destruct job; try done;
        repeat match type of Htry with
               | context [if ?b then _ else _] => destruct b
               end; by injection Htry as <- _. }
    assert (Poll.loop backend true maxWaitMs startTime (S fuel) w
            = match p with
              | Poll.Return v => Some (Resolved v, asked heard (Poll.sleeps w))
              | Poll.Throw e =>
                  Some (Rejected (Poll.catch_block e), asked heard (Poll.sleeps w))
              | Poll.Wait =>
                  Poll.loop backend true maxWaitMs startTime fuel
                    (Poll.mkWorld
                       (Poll.now w
                          + Z.of_N (Poll.latency (backend (Poll.polls w))) + 1000)
                       (S (Poll.polls w)) heard (Poll.sleeps w ++ [1000])%list)
              end) as Hpass.
    { rewrite (loop_pass _ _ _ _ _ _ [entry] p); [by destruct p|done|].
      by rewrite Hbody. }
    split.
    + rewrite Hpass. destruct p; [left; by eexists|left; by eexists|by right].
    + intros q w' Hend. rewrite Hpass in Hend. destruct p.
      * injection Hend as _ <-. exists []. by rewrite app_nil_r.
      * injection Hend as _ <-. exists []. by rewrite app_nil_r.
      * apply loop_delivered_prefix in Hend as [later Hlater].
        by exists later.
Qed.

Lemma poll_pass_progress_and_transport_error_witness :
  Poll.pollJobCompletion Samples.breaking true 120000 0
  = Some (Rejected (new_Error "Internal server error"),
          Poll.mkWorld 20 1 [] []) /\
  forall p w',
    Poll.pollJobCompletion Cases.never_ending true 3000 0 = Some (p, w') ->
    exists later, Poll.delivered w' = ([JStr "scraping"] ++ later)%list.
Proof.
  split.
  - exact (proj1 (poll_pass_progress_and_transport_error
                    Samples.breaking 120000 0 _ (Poll.mkWorld 0 0 [] [])
                    Samples.broken_with_log ltac:(simpl; lia) eq_refl)
                 true (JStr "Internal server error") eq_refl eq_refl eq_refl).
  - exact (proj2 (proj2 (poll_pass_progress_and_transport_error
                           Cases.never_ending 3000 0 4 (Poll.mkWorld 0 0 [] [])
                           Cases.running_with_log ltac:(simpl; lia) eq_refl)
                        [JStr "queued"] (JStr "scraping") eq_refl eq_refl)).
Defined.

(** C7 does not hold as written: a job record with an error and no status
    that has a log of two entries ends the poll at the first request, and
    [onProgress] has received nothing. *)
Lemma poll_error_record_with_log_delivers_nothing :
  get "progress_log" Samples.broken_with_log
  = Some (JArr [JStr "fetching"; JStr "parsing"]) /\
  Poll.pollJobCompletion Samples.breaking true 120000 0
  = Some (Rejected (new_Error "Internal server error"),
          Poll.mkWorld 20 1 [] []) /\
  Poll.delivered (Poll.mkWorld 20 1 [] []) = [].
Proof. repeat split; reflexivity. Qed.





(** ** Streaming: one frame *)

Section StreamFrames.

Import Stream.

Variables (c : nat) (cl : Closure) (st : State).

Lemma onmessage_heartbeat d :
  truthy (get "heartbeat" d) = true -> onmessage c cl (Some d) st = st.
Proof.
  intros H. destruct d; try discriminate H. unfold onmessage. by rewrite H.
Qed.

Lemma terminal_false status :
  terminal status = false ->
  is_str "completed" status = false /\ is_str "failed" status = false /\
  is_str "cancelled" status = false.
Proof. unfold terminal. rewrite !orb_false_iff. tauto. Qed.

(** A frame that is no heartbeat and has no terminal status: at most one
    progress line, the message if there is one, else the status. *)
Lemma onmessage_update d :
  truthy (get "heartbeat" d) = false ->
  terminal (get "status" d) = false ->
  onmessage c cl (Some d) st =
    match get "message" d, get "status" d with
    | Some m, Some s =>
        if truthy (Some m) then addProgress m "info" st
        else if truthy (Some s)
             then addProgress (JStr ("🔄 " +:+ to_string s)) "info" st
             else st
    | Some m, None => if truthy (Some m) then addProgress m "info" st else st
    | None, Some s =>
        if truthy (Some s)
        then addProgress (JStr ("🔄 " +:+ to_string s)) "info" st
        else st
    | None, None => st
    end.
Proof.
  intros Hh Ht. apply terminal_false in Ht as (H1 & H2 & H3).
  destruct d; try done.
  unfold onmessage. rewrite Hh, H1, H2, H3.
  destruct (get "message" _) as [m|], (get "status" _) as [s|]; try done.
  - by destruct (truthy (Some m)), (truthy (Some s)).
  - simpl. by rewrite andb_true_r.
Qed.

Lemma onmessage_neither d :
  truthy (get "heartbeat" d) = false ->
  get "status" d = None -> get "message" d = None ->
  onmessage c cl (Some d) st = st.
Proof.
  intros Hh Hs Hm. rewrite onmessage_update; [|done|by rewrite Hs].
  by rewrite Hs, Hm.
Qed.

Lemma onmessage_status_only d s :
  truthy (get "heartbeat" d) = false ->
  get "status" d = Some s -> truthy (Some s) = true -> terminal (Some s) = false ->
  truthy (get "message" d) = false ->
  onmessage c cl (Some d) st
  = addProgress (JStr ("🔄 " +:+ to_string s)) "info" st.
Proof.
  intros Hh Hs Hts Hterm Hm. rewrite onmessage_update; [|done|by rewrite Hs].
  rewrite Hs. destruct (get "message" d) as [m|]; rewrite ?Hm; by rewrite Hts.
Qed.

Lemma onmessage_message d m :
  truthy (get "heartbeat" d) = false ->
  terminal (get "status" d) = false ->
  get "message" d = Some m -> truthy (Some m) = true ->
  onmessage c cl (Some d) st = addProgress m "info" st.
Proof.
  intros Hh Hterm Hm Htm. rewrite onmessage_update by done.
  rewrite Hm, Htm. by destruct (get "status" d).
Qed.

Lemma onmessage_completed d :
  truthy (get "heartbeat" d) = false ->
  get "status" d = Some (JStr "completed") ->
  onmessage c cl (Some d) st
  = settle (outer cl) (Resolved (get "result" d))
      (close c (addProgress (JStr (emoji cl +:+ " Complete!")) "info" st)).
Proof.
  intros Hh Hs. destruct d; try done. unfold onmessage. by rewrite Hh, Hs.
Qed.

Lemma onmessage_failed d :
  truthy (get "heartbeat" d) = false ->
  get "status" d = Some (JStr "failed") ->
  onmessage c cl (Some d) st
  = settle (outer cl)
      (Rejected (new_Error (or_default (get "error" d) "Job failed")))
      (close c
         (addProgress
            (JStr (emoji cl +:+ " Failed: " +:+
                   or_default (get "error" d) "Unknown error"))
            "error" st)).
Proof.
  intros Hh Hs. destruct d; try done. unfold onmessage. by rewrite Hh, Hs.
Qed.

Lemma onmessage_cancelled d :
  truthy (get "heartbeat" d) = false ->
  get "status" d = Some (JStr "cancelled") ->
  onmessage c cl (Some d) st
  = settle (outer cl) (Rejected (new_Error "Job cancelled by user"))
      (close c (addProgress (JStr (emoji cl +:+ " Job cancelled")) "info" st)).
Proof.
  intros Hh Hs. destruct d; try done. unfold onmessage. by rewrite Hh, Hs.
Qed.

End StreamFrames.

(** ** Streaming: how the operations move channels, timers and promises *)

Section StreamOperations.

Import Stream.

Lemma listening_close st c c' cl :
  listening (close c st) c' cl <-> listening st c' cl /\ c' <> c.
Proof.
  unfold listening, close. simpl. rewrite list_lookup_alter.
  case_decide as Hc.
  - subst c'. destruct (channels st !! c) as [ch|]; simpl; split.
    + intros [=].
    + intros [_ ?]. done.
    + intros [=].
    + intros [_ ?]. done.
  - split; [intros ?; split; [done|by intros ->] | by intros [? _]].
Qed.

Lemma closed_after_close st c ch :
  channels st !! c = Some ch ->
  channels (close c st) !! c = Some (mkChannel (env ch) true).
Proof.
  intros H. unfold close. simpl. by rewrite list_lookup_alter_eq, H.
Qed.

Lemma listening_open st cl0 c cl :
  listening (open_channel cl0 st) c cl
  <-> listening st c cl \/ (c = length (channels st) /\ cl = cl0).
Proof.
  unfold listening, open_channel. simpl. rewrite lookup_snoc_Some. split.
  - intros [[_ H]|[-> [= ->]]]; auto.
  - intros [H|[-> ->]]; [left|right; done].
    split; [by eapply lookup_lt_Some|done].
Qed.

Lemma armed_setTimeout st cb ms t cl :
  armed (setTimeout cb ms st) t cl
  <-> armed st t cl \/ (t = length (timers st) /\ cl = cb).
Proof.
  unfold armed, setTimeout. simpl. split.
  - intros [ms' H]. apply lookup_snoc_Some in H as [[_ H]|[-> [= _ ->]]]; eauto.
  - intros [[ms' H]|[-> ->]].
    + exists ms'. apply lookup_snoc_Some. left.
      split; [by eapply lookup_lt_Some|done].
    + exists ms. apply lookup_snoc_Some. by right.
Qed.

Lemma armed_fire st t t' cl :
  armed (fire t st) t' cl <-> armed st t' cl /\ t' <> t.
Proof.
  unfold armed, fire. simpl. split.
  - intros [ms H]. rewrite list_lookup_alter in H. case_decide as Ht.
    + subst t'. destruct (timers st !! t); discriminate H.
    + split; [by exists ms|by intros ->].
  - intros [[ms H] Hne]. exists ms. by rewrite list_lookup_alter_ne.
Qed.

Lemma pending_settle_other st p r q :
  q <> p -> pending (settle p r st) q <-> pending st q.
Proof.
  intros Hne. unfold pending, settle. simpl. by rewrite list_lookup_alter_ne.
Qed.

(** [resolve] or [reject] on a pending promise settles it. *)
Lemma settle_pending st p r :
  pending st p -> promises (settle p r st) !! p = Some r.
Proof.
  intros H. unfold settle. simpl. by rewrite list_lookup_alter_eq, H.
Qed.

(** [resolve] or [reject] on a settled promise changes nothing. *)
Lemma settle_settled st p r q old :
  promises st !! q = Some old -> settled old = true ->
  promises (settle p r st) !! q = Some old.
Proof.
  intros H Hs. unfold settle. simpl. rewrite list_lookup_alter.
  case_decide as Hp; [|done]. subst q. rewrite H. simpl. by rewrite Hs.
Qed.

Lemma pending_new_promise st q :
  (promises st ++ [Pending])%list !! q = Some Pending
  <-> pending st q \/ q = length (promises st).
Proof.
  unfold pending. rewrite lookup_snoc_Some. split.
  - intros [[_ H]|[-> _]]; auto.
  - intros [H| ->]; [left|right; done].
    split; [by eapply lookup_lt_Some|done].
Qed.

Lemma pending_lt st q : pending st q -> (q < length (promises st))%nat.
Proof. apply lookup_lt_Some. Qed.

End StreamOperations.

(** ** Streaming: the invariant *)

Section StreamInvariant.

Import Stream.

Lemma inv_init : chain_invariant init.
Proof.
  split; intros;
    repeat match goal with
      | H : listening init _ _ |- _ => discriminate H
      | H : armed init _ _ |- _ => destruct H as [? H]; discriminate H
      end.
Qed.

Lemma inv_addProgress st m ty :
  chain_invariant st -> chain_invariant (addProgress m ty st).
Proof. intros [A B C D E]. exact (mkInv (addProgress m ty st) A B C D E). Qed.

Lemma inv_close st c : chain_invariant st -> chain_invariant (close c st).
Proof.
  intros [A B C D E]. split.
  - intros c' cl [H _]%listening_close. exact (A _ _ H).
  - exact B.
  - intros c1 c2 cl1 cl2 [H1 _]%listening_close [H2 _]%listening_close. eauto.
  - exact D.
  - intros c' t cl cl' [H _]%listening_close. eauto.
Qed.

Lemma inv_fire st t : chain_invariant st -> chain_invariant (fire t st).
Proof.
  intros [A B C D E]. split.
  - exact A.
  - intros t' cl [H _]%armed_fire. exact (B _ _ H).
  - exact C.
  - intros t1 t2 cl1 cl2 [H1 _]%armed_fire [H2 _]%armed_fire. eauto.
  - intros c t' cl cl' H [H' _]%armed_fire. eauto.
Qed.

Lemma idle_after_close st c cl :
  chain_invariant st -> listening st c cl -> idle (close c st) (outer cl).
Proof.
  intros [A B C D E] Hc. split.
  - intros c' cl' [H Hne]%listening_close Heq. apply Hne. eauto.
  - intros t cl' H Heq. by eapply E.
Qed.

Lemma idle_after_fire st t cl :
  chain_invariant st -> armed st t cl -> idle (fire t st) (outer cl).
Proof.
  intros [A B C D E] Ht. split.
  - intros c cl' H Heq. by eapply E.
  - intros t' cl' [H Hne]%armed_fire Heq. apply Hne. eauto.
Qed.

Lemma inv_settle st p r :
  chain_invariant st -> idle st p -> chain_invariant (settle p r st).
Proof.
  intros [A B C D E] [I1 I2]. split; try done.
  - intros c cl H. apply pending_settle_other; eauto.
  - intros t cl H. apply pending_settle_other; eauto.
Qed.

Lemma inv_setTimeout st cb ms :
  chain_invariant st -> pending st (outer cb) -> idle st (outer cb) ->
  chain_invariant (setTimeout cb ms st).
Proof.
  intros [A B C D E] Hp [I1 I2]. split.
  - exact A.
  - intros t cl [H|[_ ->]]%armed_setTimeout; [eauto|done].
  - exact C.
  - intros t1 t2 cl1 cl2 [H1|[-> ->]]%armed_setTimeout
           [H2|[-> ->]]%armed_setTimeout Heq; try done.
    + eauto.
    + by apply I2 in H1.
    + symmetry in Heq. by apply I2 in H2.
  - intros c t cl cl' H [H'|[_ ->]]%armed_setTimeout; eauto.
Qed.

Lemma inv_open st cl0 :
  chain_invariant st -> pending st (outer cl0) -> idle st (outer cl0) ->
  chain_invariant (open_channel cl0 st).
Proof.
  intros [A B C D E] Hp [I1 I2]. split.
  - intros c cl [H|[_ ->]]%listening_open; [eauto|done].
  - exact B.
  - intros c1 c2 cl1 cl2 [H1|[-> ->]]%listening_open
           [H2|[-> ->]]%listening_open Heq; try done.
    + eauto.
    + by apply I1 in H1.
    + symmetry in Heq. by apply I1 in H2.
  - exact D.
  - intros c t cl cl' [H|[_ ->]]%listening_open H'; [eauto|].
    intros Heq. symmetry in Heq. by apply I2 in H'.
Qed.

Lemma inv_streamJobProgress st j em n :
  chain_invariant st -> chain_invariant (streamJobProgress j em n st).
Proof.
  intros [A B C D E]. unfold streamJobProgress. apply inv_open.
  - split; try done.
    + intros c cl H. apply pending_new_promise. left. eauto.
    + intros t cl H. apply pending_new_promise. left. eauto.
  - apply pending_new_promise. by right.
  - split; simpl.
    + intros c cl H Heq. apply A, pending_lt in H. lia.
    + intros t cl H Heq. apply B, pending_lt in H. lia.
Qed.

Lemma inv_finish st c cl r m ty :
  chain_invariant st -> listening st c cl ->
  chain_invariant (settle (outer cl) r (close c (addProgress m ty st))).
Proof.
  intros Hinv Hc. apply inv_settle.
  - by apply inv_close, inv_addProgress.
  - apply idle_after_close; [by apply inv_addProgress|done].
Qed.

Lemma inv_onmessage st c cl data :
  chain_invariant st -> listening st c cl ->
  chain_invariant (onmessage c cl data st).
Proof.
  intros Hinv Hc. unfold onmessage.
  destruct data as [d|]; [|done]. destruct d; try done.
  all: repeat match goal with
         | |- chain_invariant (if ?b then _ else _) => destruct b
         | |- chain_invariant (match ?v with Some _ => _ | None => _ end) =>
             destruct v
         | |- chain_invariant (addProgress _ _ _) => apply inv_addProgress
         end;
    auto using inv_finish.
Qed.

Lemma inv_onerror st c cl :
  chain_invariant st -> listening st c cl -> chain_invariant (onerror c cl st).
Proof.
  intros Hinv Hc. unfold onerror. destruct (_ <? _)%nat.
  - pose proof (idle_after_close _ _ _ Hinv Hc) as Hidle.
    apply inv_setTimeout; [by apply inv_addProgress, inv_close| |exact Hidle].
    exact (inv_listening _ Hinv _ _ Hc).
  - apply inv_settle; [by apply inv_addProgress, inv_close|].
    exact (idle_after_close _ _ _ Hinv Hc).
Qed.

Lemma listening_lookup st c ch :
  channels st !! c = Some ch -> closed ch = false -> listening st c (env ch).
Proof. intros H Hc. unfold listening. rewrite H. destruct ch. simpl in *. by subst. Qed.

Lemma armed_lookup st t tm :
  timers st !! t = Some tm -> fired tm = false -> armed st t (callback tm).
Proof.
  intros H Hf. exists (delay tm). rewrite H. destruct tm. simpl in *. by subst.
Qed.

Lemma inv_step st e : chain_invariant st -> chain_invariant (step st e).
Proof.
  intros Hinv. destruct e as [j em|c data|c|t]; simpl.
  - by apply inv_streamJobProgress.
  - destruct (channels st !! c) as [ch|] eqn:Hch; [|done].
    destruct (closed ch) eqn:Hcl; [done|].
    apply inv_onmessage; [done|by apply listening_lookup].
  - destruct (channels st !! c) as [ch|] eqn:Hch; [|done].
    destruct (closed ch) eqn:Hcl; [done|].
    apply inv_onerror; [done|by apply listening_lookup].
  - destruct (timers st !! t) as [tm|] eqn:Htm; [|done].
    destruct (fired tm) eqn:Hf; [done|].
    pose proof (armed_lookup _ _ _ Htm Hf) as Harmed.
    apply inv_open; [by apply inv_fire| |by apply idle_after_fire].
    exact (inv_armed _ Hinv _ _ Harmed).
Qed.

Lemma inv_run st es : chain_invariant st -> chain_invariant (run st es).
Proof.
  revert st. induction es as [|e es IH]; intros st Hinv; [done|].
  simpl. by apply IH, inv_step.
Qed.

Lemma inv_reachable es : chain_invariant (run init es).
Proof. apply inv_run, inv_init. Qed.

End StreamInvariant.

(** ** Streaming: reconnection *)

Section StreamReconnect.

Import Stream.

(** Below the ceiling, an error closes the channel and arms one timer: its
    delay is [baseDelay * 2 ^ reconnectAttempts], and the call it makes has
    the counter one higher.  No promise is touched. *)
Lemma onerror_reconnects st c cl :
  (reconnectAttempts cl < maxReconnects)%nat ->
  let st' := onerror c cl st in
  timers st' = (timers st ++
    [mkTimer (baseDelay * 2 ^ Z.of_nat (reconnectAttempts cl))
             (mkClosure (jobId cl) (emoji cl) (reconnectAttempts cl + 1) (outer cl))
             false])%list /\
  promises st' = promises st /\
  channels st' = channels (close c st).
Proof.
  intros Hlt. unfold onerror. apply Nat.ltb_lt in Hlt. by rewrite Hlt.
Qed.

(** At the ceiling, an error closes the channel and rejects; no timer. *)
Lemma onerror_gives_up st c cl :
  (maxReconnects <= reconnectAttempts cl)%nat ->
  let st' := onerror c cl st in
  st' = settle (outer cl)
          (Rejected (new_Error "Stream connection failed after retries"))
          (addProgress (JStr "❌ Connection failed after 3 attempts") "error"
                       (close c st)) /\
  timers st' = timers st.
Proof.
  intros Hge. unfold onerror. apply Nat.ltb_ge in Hge. by rewrite Hge.
Qed.

End StreamReconnect.

(** ** Streaming: what never changes again *)

Section StreamMonotone.

Import Stream.

Local Ltac branches :=
  repeat match goal with
    | |- context [if ?b then _ else _] => destruct b
    | |- context [match ?v with Some _ => _ | None => _ end] => destruct v
    end.

Lemma onmessage_settled st c cl data p r :
  promises st !! p = Some r -> settled r = true ->
  promises (onmessage c cl data st) !! p = Some r.
Proof.
  intros H Hs. unfold onmessage.
  destruct data as [d|]; [|done]. destruct d; try done.
  all: branches; simpl; try done; by apply settle_settled.
Qed.

Lemma onerror_settled st c cl p r :
  promises st !! p = Some r -> settled r = true ->
  promises (onerror c cl st) !! p = Some r.
Proof.
  intros H Hs. unfold onerror. destruct (_ <? _)%nat; [done|].
  by apply settle_settled.
Qed.

(** A settled promise keeps its outcome, whatever happens next. *)
Lemma settled_forever st es p r :
  promises st !! p = Some r -> settled r = true ->
  promises (run st es) !! p = Some r.
Proof.
  revert st. induction es as [|e es IH]; intros st H Hs; [done|].
  simpl. apply IH; [|done].
  destruct e as [j em|c data|c|t]; simpl.
  - by apply lookup_app_l_Some.
  - destruct (channels st !! c) as [ch|]; [|done].
    destruct (closed ch); [done|]. by apply onmessage_settled.
  - destruct (channels st !! c) as [ch|]; [|done].
    destruct (closed ch); [done|]. by apply onerror_settled.
  - destruct (timers st !! t) as [tm|]; [|done]. by destruct (fired tm).
Qed.

Lemma close_closed st c c' cl :
  channels st !! c' = Some (mkChannel cl true) ->
  channels (close c st) !! c' = Some (mkChannel cl true).
Proof.
  intros H. unfold close. simpl. rewrite list_lookup_alter.
  case_decide as Hc; [|done]. subst c'. by rewrite H.
Qed.

Lemma onmessage_closed st c cl data c' cl' :
  channels st !! c' = Some (mkChannel cl' true) ->
  channels (onmessage c cl data st) !! c' = Some (mkChannel cl' true).
Proof.
  intros H. unfold onmessage.
  destruct data as [d|]; [|done]. destruct d; try done.
  all: branches; simpl; try done; by apply close_closed.
Qed.

Lemma onerror_closed st c cl c' cl' :
  channels st !! c' = Some (mkChannel cl' true) ->
  channels (onerror c cl st) !! c' = Some (mkChannel cl' true).
Proof.
  intros H. unfold onerror.
  destruct (_ <? _)%nat; simpl; by apply close_closed.
Qed.

(** A closed channel stays closed, so it dispatches nothing any more. *)
Lemma closed_forever st es c cl :
  channels st !! c = Some (mkChannel cl true) ->
  channels (run st es) !! c = Some (mkChannel cl true).
Proof.
  revert st. induction es as [|e es IH]; intros st H; [done|].
  simpl. apply IH.
  destruct e as [j em|c' data|c'|t]; simpl.
  - by apply lookup_app_l_Some.
  - destruct (channels st !! c') as [ch|]; [|done].
    destruct (closed ch); [done|]. by apply onmessage_closed.
  - destruct (channels st !! c') as [ch|]; [|done].
    destruct (closed ch); [done|]. by apply onerror_closed.
  - destruct (timers st !! t) as [tm|]; [|done].
    destruct (fired tm); [done|]. simpl. by apply lookup_app_l_Some.
Qed.

(** What a step does to the registry: a call or a due timer appends the
    number of the channel it opens; nothing else touches it. *)
Lemma step_registry st e :
  exists n,
    length (channels (step st e)) = (length (channels st) + n)%nat /\
    activeEventSources (step st e)
    = (activeEventSources st ++ seq (length (channels st)) n)%list.
Proof.
  assert (forall c cl data,
            length (channels (onmessage c cl data st)) = length (channels st) /\
            activeEventSources (onmessage c cl data st) = activeEventSources st)
    as Hmsg.
  { intros c cl data. unfold onmessage.
    destruct data as [d|]; [|done]. destruct d; try done.
    all: branches; simpl; rewrite ?length_alter; done. }
  assert (forall c cl,
            length (channels (onerror c cl st)) = length (channels st) /\
            activeEventSources (onerror c cl st) = activeEventSources st)
    as Herr.
  { intros c cl. unfold onerror.
    destruct (_ <? _)%nat; simpl; rewrite ?length_alter; done. }
  assert (exists n, length (channels st) = (length (channels st) + n)%nat /\
            activeEventSources st
            = (activeEventSources st ++ seq (length (channels st)) n)%list)
    as Hsame.
  { exists 0%nat. simpl. by rewrite Nat.add_0_r, app_nil_r. }
  destruct e as [j em|c data|c|t]; simpl.
  - exists 1%nat. simpl. rewrite length_app. simpl. done.
  - destruct (channels st !! c) as [ch|]; [|done].
    destruct (closed ch); [done|].
    destruct (Hmsg c (env ch) data) as [-> ->]. done.
  - destruct (channels st !! c) as [ch|]; [|done].
    destruct (closed ch); [done|].
    destruct (Herr c (env ch)) as [-> ->]. done.
  - destruct (timers st !! t) as [tm|]; [|done].
    destruct (fired tm); [done|].
    exists 1%nat. simpl. rewrite length_app. simpl. done.
Qed.

Lemma run_registry st es :
  exists n,
    length (channels (run st es)) = (length (channels st) + n)%nat /\
    activeEventSources (run st es)
    = (activeEventSources st ++ seq (length (channels st)) n)%list.
Proof.
  revert st. induction es as [|e es IH]; intros st.
  - exists 0%nat. simpl. by rewrite Nat.add_0_r, app_nil_r.
  - simpl. destruct (step_registry st e) as (n1 & Hl1 & Ha1).
    destruct (IH (step st e)) as (n2 & Hl2 & Ha2).
    exists (n1 + n2)%nat. split; [lia|].
    rewrite Ha2, Ha1, Hl1, <- app_assoc. f_equal.
    by rewrite seq_app.
Qed.

End StreamMonotone.

(** ** Streaming: the claims about frames and the registry *)

Lemma step_message st c cl data :
  Stream.listening st c cl ->
  Stream.step st (Stream.Message c data) = Stream.onmessage c cl data st.
Proof. intros H. simpl. unfold Stream.listening in H. by rewrite H. Qed.

Lemma step_failure st c cl :
  Stream.listening st c cl ->
  Stream.step st (Stream.Failure c) = Stream.onerror c cl st.
Proof. intros H. simpl. unfold Stream.listening in H. by rewrite H. Qed.

Lemma run_cons st e es :
  Stream.run st (e :: es) = Stream.run (Stream.step st e) es.
Proof. reflexivity. Qed.

Lemma run_app st es1 es2 :
  Stream.run st (es1 ++ es2) = Stream.run (Stream.run st es1) es2.
Proof. apply fold_left_app. Qed.

(** Heartbeat frames leave the whole state as it is, on any channel. *)
Lemma heartbeats_invisible st c hs :
  Forall (fun h => truthy (get "heartbeat" h) = true) hs ->
  Stream.run st (map (fun h => Stream.Message c (Some h)) hs) = st.
Proof.
  induction 1 as [|h hs Hh _ IH]; [done|].
  cbn [map]. rewrite run_cons.
  assert (Stream.step st (Stream.Message c (Some h)) = st) as ->; [|done].
  cbn [Stream.step].
  destruct (Stream.channels st !! c) as [ch|]; [|done].
  destruct (Stream.closed ch); [done|]. by apply onmessage_heartbeat.
Qed.

(** The promise a terminal frame settles, by its status. *)
Lemma terminal_frame_settles st c cl d :
  Stream.chain_invariant st -> Stream.listening st c cl ->
  truthy (get "heartbeat" d) = false ->
  Stream.terminal (get "status" d) = true ->
  let st' := Stream.step st (Stream.Message c (Some d)) in
  exists r,
    Stream.promises st' !! Stream.outer cl = Some r /\
    settled r = true /\
    Stream.channels st' !! c = Some (Stream.mkChannel cl true) /\
    (get "status" d = Some (JStr "completed") -> r = Resolved (get "result" d)) /\
    (get "status" d = Some (JStr "failed") ->
     r = Rejected (new_Error (or_default (get "error" d) "Job failed"))) /\
    (get "status" d = Some (JStr "cancelled") ->
     r = Rejected (new_Error "Job cancelled by user")).
Proof.
  intros Hinv Hc Hh Hterm st'. subst st'. rewrite (step_message _ _ cl) by done.
  pose proof (Stream.inv_listening _ Hinv _ _ Hc) as Hp.
  unfold Stream.terminal in Hterm.
  apply orb_true_iff in Hterm as [Hterm|Hterm];
    [apply orb_true_iff in Hterm as [Hterm|Hterm]|];
    apply is_str_true in Hterm.
  - rewrite onmessage_completed by done. eexists. split; [by apply settle_pending|].
    split; [done|]. split; [by apply (closed_after_close _ _ _ Hc)|].
    rewrite Hterm. repeat split; by intros [=].
  - rewrite onmessage_failed by done. eexists. split; [by apply settle_pending|].
    split; [done|]. split; [by apply (closed_after_close _ _ _ Hc)|].
    rewrite Hterm. repeat split; by intros [=].
  - rewrite onmessage_cancelled by done. eexists. split; [by apply settle_pending|].
    split; [done|]. split; [by apply (closed_after_close _ _ _ Hc)|].
    rewrite Hterm. repeat split; by intros [=].
Qed.

(** C5, as the code has it: a frame that arrives on an open channel, in a
    state the client can reach, is dispatched by these tests, in this
    order.
    - A truthy [heartbeat]: nothing changes, whatever else the frame
      carries; so heartbeats before another frame leave what that frame
      alone leaves.
    - Status completed, failed or cancelled: the client writes one progress
      line of its own ('<emoji> Complete!', '<emoji> Failed: ...' as an error
      line, '<emoji> Job cancelled'), closes the channel and settles the
      pending promise of the call; the registry is left as it is, a message
      in the frame is not forwarded, and no later event changes the outcome
      or reopens the channel.
    - Otherwise a truthy [message] is the one line added, as it is.
    - Otherwise a truthy [status] gives the one line '🔄 <status>'.
    - Otherwise the frame is ignored. *)
Theorem stream_frame_dispatch (es : list Stream.event) (c : nat) (cl : Stream.Closure) :
  let st := Stream.run Stream.init es in
  Stream.listening st c cl ->
  let with_line msg type :=
    Stream.mkState (Stream.promises st) (Stream.channels st)
      (Stream.activeEventSources st) (Stream.timers st)
      (Stream.progress st ++ [(msg, type)])%list in
  (forall d,
     truthy (get "heartbeat" d) = true ->
     Stream.step st (Stream.Message c (Some d)) = st) /\
  (forall hs e,
     Forall (fun h => truthy (get "heartbeat" h) = true) hs ->
     Stream.run st (map (fun h => Stream.Message c (Some h)) hs ++ [e])
     = Stream.step st e) /\
  (forall d,
     truthy (get "heartbeat" d) = false ->
     Stream.terminal (get "status" d) = true ->
     let st' := Stream.step st (Stream.Message c (Some d)) in
     Stream.pending st (Stream.outer cl) /\
     exists r text type,
       Stream.progress st' = (Stream.progress st ++ [(JStr text, type)])%list /\
       Stream.promises st' !! Stream.outer cl = Some r /\
       settled r = true /\
       Stream.channels st' !! c = Some (Stream.mkChannel cl true) /\
       Stream.activeEventSources st' = Stream.activeEventSources st /\
       (get "status" d = Some (JStr "completed") ->
        r = Resolved (get "result" d) /\
        text = Stream.emoji cl +:+ " Complete!" /\ type = "info") /\
       (get "status" d = Some (JStr "failed") ->
        r = Rejected (new_Error (or_default (get "error" d) "Job failed")) /\
        text = Stream.emoji cl +:+ " Failed: " +:+
               or_default (get "error" d) "Unknown error" /\
        type = "error") /\
       (get "status" d = Some (JStr "cancelled") ->
        r = Rejected (new_Error "Job cancelled by user") /\
        text = Stream.emoji cl +:+ " Job cancelled" /\ type = "info") /\
       (forall es',
          Stream.promises (Stream.run st' es') !! Stream.outer cl = Some r /\
          Stream.channels (Stream.run st' es') !! c
          = Some (Stream.mkChannel cl true))) /\
  (forall d,
     truthy (get "heartbeat" d) = false ->
     Stream.terminal (get "status" d) = false ->
     let st' := Stream.step st (Stream.Message c (Some d)) in
     (forall m,
        get "message" d = Some m -> truthy (Some m) = true ->
        st' = with_line m "info") /\
     (forall s,
        truthy (get "message" d) = false ->
        get "status" d = Some s -> truthy (Some s) = true ->
        st' = with_line (JStr ("🔄 " +:+ to_string s)) "info") /\
     (truthy (get "message" d) = false -> truthy (get "status" d) = false ->
      st' = st)).
Proof.
  intros st Hc with_line. pose proof (inv_reachable es) as Hinv. fold st in Hinv.
  split; [|split; [|split]].
  - intros d Hh. rewrite (step_message _ _ cl) by done.
    by apply onmessage_heartbeat.
  - intros hs e Hhs. by rewrite run_app, heartbeats_invisible.
  - intros d Hh Hterm st'.
    split; [exact (Stream.inv_listening _ Hinv _ _ Hc)|].
    destruct (terminal_frame_settles st c cl d Hinv Hc Hh Hterm)
      as (r & Hr & Hset & Hcl & H1 & H2 & H3).
    assert (forall es',
              Stream.promises (Stream.run st' es') !! Stream.outer cl = Some r /\
              Stream.channels (Stream.run st' es') !! c
              = Some (Stream.mkChannel cl true)) as Hlater.
    { intros es'. split; [by apply settled_forever|by apply closed_forever]. }
    unfold Stream.terminal in Hterm.
    apply orb_true_iff in Hterm as [Hterm|Hterm];
      [apply orb_true_iff in Hterm as [Hterm|Hterm]|];
      apply is_str_true in Hterm.
    + exists r, (Stream.emoji cl +:+ " Complete!"), "info".
      split. { subst st'. rewrite (step_message _ _ cl) by done.
               by rewrite onmessage_completed. }
      do 3 (split; [done|]).
      split. { subst st'. rewrite (step_message _ _ cl) by done.
               by rewrite onmessage_completed. }
      rewrite Hterm. split; [intros _; split; [by apply H1|done]|].
      split; [by intros [=]|]. split; [by intros [=]|done].
    + exists r, (Stream.emoji cl +:+ " Failed: " +:+
                 or_default (get "error" d) "Unknown error"), "error".
      split. { subst st'. rewrite (step_message _ _ cl) by done.
               by rewrite onmessage_failed. }
      do 3 (split; [done|]).
      split. { subst st'. rewrite (step_message _ _ cl) by done.
               by rewrite onmessage_failed. }
      rewrite Hterm. split; [by intros [=]|].
      split; [intros _; split; [by apply H2|done]|]. split; [by intros [=]|done].
    + exists r, (Stream.emoji cl +:+ " Job cancelled"), "info".
      split. { subst st'. rewrite (step_message _ _ cl) by done.
               by rewrite onmessage_cancelled. }
      do 3 (split; [done|]).
      split. { subst st'. rewrite (step_message _ _ cl) by done.
               by rewrite onmessage_cancelled. }
      rewrite Hterm. split; [by intros [=]|]. split; [by intros [=]|].
      split; [intros _; split; [by apply H3|done]|done].
  - intros d Hh Hterm st'. subst st'. rewrite (step_message _ _ cl) by done.
    rewrite onmessage_update by done.
    split; [|split].
    + intros m Hm Htm. rewrite Hm, Htm. by destruct (get "status" d).
    + intros s Hm Hs Hts. rewrite Hs.
      destruct (get "message" d) as [m|]; rewrite ?Hm; by rewrite Hts.
    + intros Hm Hs.
      destruct (get "message" d) as [m|], (get "status" d) as [s|];
        rewrite ?Hm, ?Hs; done.
Qed.

Lemma stream_frame_dispatch_witness :
  let st := Stream.run Stream.init [Stream.Call "job-1" "⏳"] in
  Stream.run st
    (map (fun h => Stream.Message 0 (Some h))
         [JObj [("heartbeat", JBool true)]; JObj [("heartbeat", JNum 1)]]
     ++ [Stream.Message 0 (Samples.frame [("message", JStr "fetching")])])
  = Stream.mkState [Pending]
      [Stream.mkChannel (Stream.mkClosure "job-1" "⏳" 0 0) false] [0%nat] []
      [(JStr "fetching", "info")].
Proof.
  intros st.
  destruct (stream_frame_dispatch
              [Stream.Call "job-1" "⏳"] 0
              (Stream.mkClosure "job-1" "⏳" 0 0) eq_refl)
    as (_ & Hbeats & _ & Hlines).
  fold st in Hbeats, Hlines. rewrite Hbeats by (repeat constructor).
  exact (proj1 (Hlines (JObj [("message", JStr "fetching")]) eq_refl eq_refl)
               (JStr "fetching") eq_refl eq_refl).
Defined.

(** C5 does not hold as written.  After a call, heartbeats alone and then
    the frame that completes the job leave one progress line, the client's
    own; a terminal frame that carries a message does not have it
    forwarded; a frame whose message is the empty string forwards nothing;
    and a frame with a terminal status that is also a heartbeat neither
    closes the channel nor settles the promise. *)
Lemma stream_terminal_frame_writes_its_line :
  let st := Stream.run Stream.init [Stream.Call "job-1" "⏳"] in
  let heartbeats := [Stream.Message 0 Samples.heartbeat; Stream.Message 0 Samples.heartbeat] in
  Stream.progress (Stream.run st (heartbeats ++ [Stream.Message 0 Samples.completed_frame]))
  = [(JStr "⏳ Complete!", "info")] /\
  Stream.progress
    (Stream.step st
       (Stream.Message 0
          (Samples.frame [("status", JStr "failed"); ("error", JStr "Out of memory");
                          ("message", JStr "giving up")])))
  = [(JStr "⏳ Failed: Out of memory", "error")] /\
  Stream.step st (Stream.Message 0 (Samples.frame [("message", JStr "")])) = st /\
  Stream.step st
    (Stream.Message 0
       (Samples.frame [("heartbeat", JBool true); ("status", JStr "completed");
                       ("result", Samples.payload)]))
  = st /\
  Stream.promises st = [Pending] /\
  Stream.channels st = [Stream.mkChannel (Stream.mkClosure "job-1" "⏳" 0 0) false].
Proof. repeat split; reflexivity. Qed.

(** C9, as the code has it: a frame on an open channel that is no heartbeat
    and has a truthy status which is not terminal
    - and a truthy message: the message itself is the one progress line
      added, and no line is made from the status;
    - and a message that is absent or falsy (the empty string, [null], 0,
      [false]): the line made from the status is the one added. *)
Theorem stream_message_wins_over_status
    (st : Stream.State) (c : nat) (cl : Stream.Closure) (d s : json) :
  Stream.listening st c cl ->
  truthy (get "heartbeat" d) = false ->
  get "status" d = Some s ->
  truthy (Some s) = true ->
  Stream.terminal (Some s) = false ->
  let st' := Stream.step st (Stream.Message c (Some d)) in
  (forall m,
     get "message" d = Some m -> truthy (Some m) = true ->
     st' = Stream.addProgress m "info" st /\
     Stream.progress st' = (Stream.progress st ++ [(m, "info")])%list) /\
  (truthy (get "message" d) = false ->
   st' = Stream.addProgress (JStr ("🔄 " +:+ to_string s)) "info" st /\
   Stream.progress st'
   = (Stream.progress st ++ [(JStr ("🔄 " +:+ to_string s), "info")])%list).
Proof.
  intros Hc Hh Hs Hts Hterm st'. subst st'.
  rewrite (step_message _ _ cl) by done. split.
  - intros m Hm Htm.
    by rewrite (onmessage_message c cl st d m) by (rewrite ?Hs; done).
  - intros Hm. by rewrite (onmessage_status_only _ _ _ _ s).
Qed.

Lemma stream_message_wins_over_status_witness :
  let st := Stream.run Stream.init [Stream.Call "job-1" "⏳"] in
  Stream.progress
    (Stream.step st
       (Stream.Message 0
          (Samples.frame [("status", JStr "running"); ("message", JStr "scoring")])))
  = [(JStr "scoring", "info")].
Proof.
  refine (proj2 (proj1 (stream_message_wins_over_status
                          (Stream.run Stream.init [Stream.Call "job-1" "⏳"]) 0
                          (Stream.mkClosure "job-1" "⏳" 0 0)
                          (JObj [("status", JStr "running"); ("message", JStr "scoring")])
                          (JStr "running") eq_refl eq_refl eq_refl eq_refl eq_refl)
                       (JStr "scoring") eq_refl eq_refl)).
Defined.

(** C9 does not hold as written: a frame that carries a status and a
    message field, the message being the empty string, has nothing
    forwarded and gets the line made from the status. *)
Lemma stream_empty_message_gives_status_line :
  let st := Stream.run Stream.init [Stream.Call "job-1" "⏳"] in
  let d := JObj [("status", JStr "running"); ("message", JStr "")] in
  get "message" d = Some (JStr "") /\
  Stream.progress st = [] /\
  Stream.progress (Stream.step st (Stream.Message 0 (Some d)))
  = [(JStr "🔄 running", "info")].
Proof. repeat split; reflexivity. Qed.

(** C3, as the code has it: every channel the client opens is appended to
    [AppState.activeEventSources], once, and no handler of the client takes
    an entry out: whatever happens, the entries that were there stay, and
    after any run from the start the registry lists every channel ever
    opened, open or closed, its job settled or not.  The frame that ends a
    job, like an error event, closes the channel and leaves the registry
    as it is. *)
Theorem stream_channels_stay_tracked (st : Stream.State) (es : list Stream.event) :
  let st' := Stream.run st es in
  (exists opened,
     length (Stream.channels st') = (length (Stream.channels st) + opened)%nat /\
     Stream.activeEventSources st'
     = (Stream.activeEventSources st
          ++ seq (length (Stream.channels st)) opened)%list) /\
  (forall c, c ∈ Stream.activeEventSources st -> c ∈ Stream.activeEventSources st') /\
  Stream.activeEventSources (Stream.run Stream.init es)
  = seq 0 (length (Stream.channels (Stream.run Stream.init es))) /\
  (forall c cl d,
     Stream.listening st c cl ->
     truthy (get "heartbeat" d) = false ->
     Stream.terminal (get "status" d) = true ->
     let closing := Stream.step st (Stream.Message c (Some d)) in
     Stream.channels closing !! c = Some (Stream.mkChannel cl true) /\
     Stream.activeEventSources closing = Stream.activeEventSources st) /\
  (forall c cl,
     Stream.listening st c cl ->
     let closing := Stream.step st (Stream.Failure c) in
     Stream.channels closing !! c = Some (Stream.mkChannel cl true) /\
     Stream.activeEventSources closing = Stream.activeEventSources st).
Proof.
  intros st'. subst st'.
  destruct (run_registry st es) as (n & Hlen & Hact).
  split; [|split; [|split; [|split]]].
  - by exists n.
  - intros c Hin. rewrite Hact. apply elem_of_app. by left.
  - destruct (run_registry Stream.init es) as (n0 & Hlen0 & Hact0).
    rewrite Hact0, Hlen0. done.
  - intros c cl d Hc Hh Hterm closing. subst closing.
    rewrite (step_message _ _ cl) by done.
    unfold Stream.terminal in Hterm.
    apply orb_true_iff in Hterm as [Hterm|Hterm];
      [apply orb_true_iff in Hterm as [Hterm|Hterm]|];
      apply is_str_true in Hterm.
    + rewrite onmessage_completed by done.
      split; [|done]. by apply (closed_after_close _ _ _ Hc).
    + rewrite onmessage_failed by done.
      split; [|done]. by apply (closed_after_close _ _ _ Hc).
    + rewrite onmessage_cancelled by done.
      split; [|done]. by apply (closed_after_close _ _ _ Hc).
  - intros c cl Hc closing. subst closing.
    rewrite (step_failure _ _ cl) by done. unfold Stream.onerror.
    destruct (_ <? _)%nat; (split; [|done]);
      by apply (closed_after_close _ _ _ Hc).
Qed.

Lemma close_each_lookup (l : list nat) (chs : list Stream.Channel) c ch :
  chs !! c = Some ch ->
  fold_left (fun chs c => alter (fun ch => Stream.mkChannel (Stream.env ch) true) c chs)
            l chs !! c
  = Some (if decide (c ∈ l) then Stream.mkChannel (Stream.env ch) true else ch).
Proof.
  revert chs ch. induction l as [|a l IH]; intros chs ch Hch.
  - simpl. rewrite Hch. destruct (decide (c ∈ [])) as [Hin|]; [|done].
    exfalso. by eapply not_elem_of_nil.
  - simpl. destruct (decide (a = c)) as [->|Hne].
    + rewrite (IH _ (Stream.mkChannel (Stream.env ch) true))
        by (by rewrite list_lookup_alter_eq, Hch).
      rewrite (decide_True (P := c ∈ c :: l)) by apply list_elem_of_here.
      by case_decide.
    + rewrite (IH _ ch) by (by rewrite list_lookup_alter_ne).
      destruct (decide (c ∈ l)) as [Hl|Hl].
      * rewrite decide_True; [done|]. by apply list_elem_of_further.
      * rewrite decide_False; [done|].
        intros Hin. apply elem_of_cons in Hin as [Heq|Hin]; [by subst|done].
Qed.

(** The stop action, as the spec describes it, is what empties the
    registry: every channel that was tracked is closed, and no promise is
    touched. *)
Lemma closeAllStreams_empties (st : Stream.State) :
  let st' := Stream.closeAllStreams st in
  Stream.activeEventSources st' = [] /\
  Stream.promises st' = Stream.promises st /\
  (forall c ch,
     c ∈ Stream.activeEventSources st -> Stream.channels st !! c = Some ch ->
     Stream.channels st' !! c = Some (Stream.mkChannel (Stream.env ch) true)).
Proof.
  repeat split. intros c ch Hin Hch. simpl.
  rewrite (close_each_lookup _ _ _ _ Hch). by rewrite decide_True.
Qed.

(** C3 does not hold as written: after the frame that completes the job,
    the promise is resolved and the channel closed, and the channel is
    still in the registry. *)
Lemma stream_channel_tracked_after_settling :
  let st := Stream.run Stream.init
              [Stream.Call "job-1" "⏳"; Stream.Message 0 Samples.completed_frame] in
  Stream.promises st = [Resolved (Some Samples.payload)] /\
  Stream.channels st = [Stream.mkChannel (Stream.mkClosure "job-1" "⏳" 0 0) true] /\
  Stream.activeEventSources st = [0%nat] /\
  0%nat ∈ Stream.activeEventSources st.
Proof. repeat split; try reflexivity. simpl. apply list_elem_of_here. Qed.

(** ** Failure, cancellation and what the user is shown *)




(** The [catch] block of [processContent] shows an error unless its message
    contains "cancelled" or "stopped". *)
Lemma processContent_catch_None e :
  App.processContent_catch e = None <->
  includes "cancelled" (message e) = true \/ includes "stopped" (message e) = true.
Proof.
  unfold App.processContent_catch.
  destruct (includes "cancelled" _), (includes "stopped" _); simpl;
    split; try done; auto; by intros [|].
Qed.


(** ** Starting a job *)

(** A start request that is refused makes every [run...] function and
    [fetchArticleFromUrl] throw, and leaves the job ids and the channels as
    they were; the [catch] block adds one progress line. *)
Lemma start_refused (k : Launch.pipeline) (body : Error + json) (app : Launch.AppState) :
  (exists e, Launch.fetch_start (Launch.Response false body) = inl e) /\
  exists e,
    Launch.run_start k (Launch.Response false body) app
    = (Some e,
       Launch.mkApp (Launch.currentJobIds app)
         (Stream.addProgress (JStr (Launch.catch_label k +:+ message e)) "error"
                             (Launch.streams app))).
Proof.
  split; destruct body as [e|[]]; eexists; reflexivity.
Qed.

(** C8, where the code departs from it: an accepted start request whose
    body has no job id.  [fetchArticleFromUrl] throws 'No job ID returned'.
    Each [run...] function throws nothing: it stores [undefined] as the job
    id of its pipeline and opens a stream for the job "undefined". *)
Theorem run_start_without_job_id (k : Launch.pipeline) (app : Launch.AppState) :
  let response := Launch.Response true (inr (JObj [])) in
  Launch.fetch_start response = inl (new_Error "No job ID returned") /\
  Launch.run_start k response app
  = (None,
     Launch.mkApp (<[Launch.slot k := undefined]> (Launch.currentJobIds app))
       (Stream.streamJobProgress "undefined" (Launch.stream_emoji k) 0
                                 (Launch.streams app))) /\
  Stream.activeEventSources (Launch.streams (snd (Launch.run_start k response app)))
  = (Stream.activeEventSources (Launch.streams app)
       ++ [length (Stream.channels (Launch.streams app))])%list.
Proof. by destruct k. Qed.

(** ** Streaming: a call whose channels all fail *)

Section StreamGivesUp.

Import Stream.
Local Open Scope list_scope.

Lemma alter_last {A} (f : A -> A) (l : list A) (x : A) :
  alter f (length l) (l ++ [x]) = l ++ [f x].
Proof.
  rewrite <- (Nat.add_0_r (length l)) at 1. by rewrite alter_app_r.
Qed.

(** Promises, channels, timers and registry of two states are the same. *)
Local Abbreviation same_wiring st' st :=
  (promises st' = promises st /\ channels st' = channels st /\
   timers st' = timers st /\ activeEventSources st' = activeEventSources st).

(** A frame without terminal status adds progress lines at most. *)
Lemma onmessage_quiet st c cl d :
  terminal (get "status" d) = false ->
  same_wiring (onmessage c cl (Some d) st) st.
Proof.
  intros Hterm. destruct (truthy (get "heartbeat" d)) eqn:Hh.
  - by rewrite onmessage_heartbeat.
  - rewrite onmessage_update by done.
    destruct (get "message" d) as [m|], (get "status" d) as [s|];
      repeat match goal with
        | |- context [if ?b then _ else _] => destruct b
        end; done.
Qed.

Lemma frames_quiet st c ds :
  Forall (fun d => terminal (get "status" d) = false) ds ->
  same_wiring (run st (frames c ds)) st.
Proof.
  intros Hds. revert st. induction Hds as [|d ds Hd _ IH]; intros st; [done|].
  unfold frames. cbn [map]. rewrite run_cons. fold (frames c ds).
  destruct (IH (step st (Message c (Some d)))) as (-> & -> & -> & ->).
  cbn [step]. destruct (channels st !! c) as [ch|]; [|done].
  destruct (closed ch); [done|]. by apply onmessage_quiet.
Qed.

(** One round: the open channel, last of the channels, delivers frames and
    fails below the ceiling; the timer this arms, last of the timers,
    fires. *)
Lemma failing_round st C T j em n p ds :
  channels st = (C ++ [mkChannel (mkClosure j em n p) false])%list ->
  timers st = T ->
  (n < maxReconnects)%nat ->
  Forall (fun d => terminal (get "status" d) = false) ds ->
  let st' := run st (frames (length C) ds ++ [Failure (length C); Timeout (length T)]) in
  channels st'
  = ((C ++ [mkChannel (mkClosure j em n p) true])
       ++ [mkChannel (mkClosure j em (n + 1) p) false])%list /\
  timers st'
  = (T ++ [mkTimer (baseDelay * 2 ^ Z.of_nat n) (mkClosure j em (n + 1) p) true])%list /\
  promises st' = promises st /\
  activeEventSources st' = (activeEventSources st ++ [length C + 1])%nat%list.
Proof.
  intros HC HT Hn Hds st'. subst st'. rewrite run_app.
  destruct (frames_quiet st (length C) ds Hds) as (HP1 & HC1 & HT1 & HA1).
  set (st1 := run st (frames (length C) ds)) in *.
  rewrite HC in HC1. rewrite HT in HT1.
  assert (listening st1 (length C) (mkClosure j em n p)) as Hl.
  { unfold listening. rewrite HC1. by apply list_lookup_middle. }
  rewrite run_cons, (step_failure _ _ _ Hl).
  unfold onerror. cbn [reconnectAttempts jobId emoji outer].
  apply Nat.ltb_lt in Hn. rewrite Hn.
  set (st2 := setTimeout _ _ _).
  assert (timers st2
          = (T ++ [mkTimer (baseDelay * 2 ^ Z.of_nat n)
                           (mkClosure j em (n + 1) p) false])%list) as HT2.
  { subst st2. simpl. by rewrite HT1. }
  assert (channels st2 = (C ++ [mkChannel (mkClosure j em n p) true])%list) as HC2.
  { subst st2. simpl. rewrite HC1. by rewrite alter_last. }
  assert (promises st2 = promises st /\
          activeEventSources st2 = activeEventSources st) as [HP2 HA2].
  { subst st2. simpl. by rewrite HP1, HA1. }
  clearbody st2. rewrite run_cons. cbn [run fold_left step].
  rewrite HT2, (list_lookup_middle _ [] _ _ eq_refl). cbn [fired callback].
  unfold open_channel, fire. simpl. rewrite HC2, HT2, HP2, HA2, alter_last.
  rewrite length_app. simpl. done.
Qed.

(** The last round: the open channel, last of the channels, delivers
    frames and fails at the ceiling. *)
Lemma failing_last st C P j em n ds :
  channels st = (C ++ [mkChannel (mkClosure j em n (length P)) false])%list ->
  promises st = (P ++ [Pending])%list ->
  (maxReconnects <= n)%nat ->
  Forall (fun d => terminal (get "status" d) = false) ds ->
  let st' := run st (frames (length C) ds ++ [Failure (length C)]) in
  channels st' = (C ++ [mkChannel (mkClosure j em n (length P)) true])%list /\
  timers st' = timers st /\
  promises st'
  = (P ++ [Rejected (new_Error "Stream connection failed after retries")])%list /\
  activeEventSources st' = activeEventSources st.
Proof.
  intros HC HP Hn Hds st'. subst st'. rewrite run_app.
  destruct (frames_quiet st (length C) ds Hds) as (HP1 & HC1 & HT1 & HA1).
  set (st1 := run st (frames (length C) ds)) in *.
  rewrite HC in HC1. rewrite HP in HP1.
  assert (listening st1 (length C) (mkClosure j em n (length P))) as Hl.
  { unfold listening. rewrite HC1. by apply list_lookup_middle. }
  cbn [run fold_left]. rewrite (step_failure _ _ _ Hl).
  destruct (onerror_gives_up st1 (length C) (mkClosure j em n (length P)) Hn)
    as [-> _].
  simpl. rewrite HC1, HP1, HT1, HA1, !alter_last. done.
Qed.

Lemma promises_grow st es :
  (length (promises st) <= length (promises (run st es)))%nat.
Proof.
  revert st. induction es as [|e es IH]; intros st; [done|].
  rewrite run_cons. etransitivity; [|apply IH].
  destruct e as [j em|c data|c|t]; cbn [step].
  - simpl. rewrite length_app. simpl. lia.
  - destruct (channels st !! c) as [ch|]; [|done].
    destruct (closed ch); [done|]. unfold onmessage.
    destruct data as [d|]; [|done]. destruct d; try done.
    all: repeat match goal with
           | |- context [if ?b then _ else _] => destruct b
           | |- context [match ?v with Some _ => _ | None => _ end] => destruct v
           end; simpl; rewrite ?length_alter; done.
  - destruct (channels st !! c) as [ch|]; [|done].
    destruct (closed ch); [done|]. unfold onerror.
    destruct (_ <? _)%nat; simpl; rewrite ?length_alter; done.
  - destruct (timers st !! t) as [tm|]; [|done]. by destruct (fired tm).
Qed.

(** A promise that is pending after some events was pending all along. *)
Lemma pending_before st es1 es2 p :
  promises (run st (es1 ++ es2)) !! p = Some Pending ->
  (p < length (promises (run st es1)))%nat ->
  promises (run st es1) !! p = Some Pending.
Proof.
  intros Hend Hlt. apply lookup_lt_is_Some_2 in Hlt as [r Hr].
  destruct r as [|v|e]; [done| |].
  - rewrite run_app, (settled_forever _ _ _ _ Hr) in Hend; done.
  - rewrite run_app, (settled_forever _ _ _ _ Hr) in Hend; done.
Qed.

End StreamGivesUp.

(** ** Streaming: the errors a promise is rejected with *)

Section StreamPlainErrors.

Import Stream.

Local Abbreviation plain st :=
  (forall q e, promises st !! q = Some (Rejected e) -> name e = "Error").

Lemma plain_settle st p r :
  plain st -> (forall e, r = Rejected e -> name e = "Error") ->
  plain (settle p r st).
Proof.
  intros Hst Hr q e. unfold settle. simpl. rewrite list_lookup_alter.
  case_decide as Hq; [|by apply Hst]. subst q.
  destruct (promises st !! p) as [old|] eqn:Hold; [|done]. simpl.
  destruct old; simpl; intros [= Heq]; [by apply Hr|].
  apply (Hst p). by rewrite Hold, Heq.
Qed.

Lemma plain_onmessage st c cl data : plain st -> plain (onmessage c cl data st).
Proof.
  intros Hst. unfold onmessage.
  destruct data as [d|]; [|done]. destruct d; try done.
  all: repeat match goal with
         | |- context [if ?b then _ else _] => destruct b
         | |- context [match ?v with Some _ => _ | None => _ end] => destruct v
         end; try done;
       apply plain_settle; try done; by intros ? [= <-].
Qed.

Lemma plain_onerror st c cl : plain st -> plain (onerror c cl st).
Proof.
  intros Hst. unfold onerror. destruct (_ <? _)%nat; [done|].
  apply plain_settle; [done|]. by intros ? [= <-].
Qed.

(** The client has no error classes: whatever happens, a promise that is
    rejected is rejected with a plain [Error]. *)
Lemma rejections_plain es : plain (run init es).
Proof.
  assert (forall st, plain st -> plain (run st es)) as Hrun.
  { induction es as [|ev es IH]; intros st Hst; [done|].
    rewrite run_cons. apply IH.
    destruct ev as [j em|c data|c|t]; cbn [step].
    - intros q e. simpl. intros H.
      apply lookup_app_Some in H as [H|[_ H]]; [by apply (Hst q)|].
      destruct (q - length (promises st))%nat; done.
    - destruct (channels st !! c) as [ch|]; [|done].
      destruct (closed ch); [done|]. by apply plain_onmessage.
    - destruct (channels st !! c) as [ch|]; [|done].
      destruct (closed ch); [done|]. by apply plain_onerror.
    - destruct (timers st !! t) as [tm|]; [|done]. by destruct (fired tm). }
  apply Hrun. intros q e. by destruct q.
Qed.

End StreamPlainErrors.

(** A call whose channels all fail, round by round. *)
Lemma failing_call_gives_up
    (st : Stream.State) (jobId emoji : string) (ds0 ds1 ds2 ds3 : list json) :
  let quiet := Forall (fun d => Stream.terminal (get "status" d) = false) in
  quiet ds0 -> quiet ds1 -> quiet ds2 -> quiet ds3 ->
  let schedule := Stream.failing_call st jobId emoji ds0 ds1 ds2 ds3 in
  let st' := Stream.run st schedule in
  let call n := Stream.mkClosure jobId emoji n (length (Stream.promises st)) in
  Stream.promises st'
  = (Stream.promises st
       ++ [Rejected (new_Error "Stream connection failed after retries")])%list /\
  Stream.timers st'
  = (Stream.timers st
       ++ [Stream.mkTimer 2000 (call 1%nat) true;
           Stream.mkTimer 4000 (call 2%nat) true;
           Stream.mkTimer 8000 (call 3%nat) true])%list /\
  [2000; 4000; 8000] = map (fun n => Stream.baseDelay * 2 ^ Z.of_nat n) [0; 1; 2]%nat /\
  Stream.channels st'
  = (Stream.channels st
       ++ [Stream.mkChannel (call 0%nat) true; Stream.mkChannel (call 1%nat) true;
           Stream.mkChannel (call 2%nat) true; Stream.mkChannel (call 3%nat) true])%list /\
  (forall es1 es2,
     schedule = (es1 ++ es2)%list -> es1 <> [] -> es2 <> [] ->
     Stream.promises (Stream.run st es1) !! length (Stream.promises st)
     = Some Pending).
Proof.
  intros quiet H0 H1 H2 H3 schedule st' call.
  set (p := length (Stream.promises st)) in *.
  set (c := length (Stream.channels st)).
  set (t := length (Stream.timers st)).
  (* the call *)
  set (s0 := Stream.step st (Stream.Call jobId emoji)).
  assert (Stream.channels s0
          = (Stream.channels st ++ [Stream.mkChannel (call 0%nat) false])%list) as HC0
    by reflexivity.
  assert (Stream.promises s0 = (Stream.promises st ++ [Pending])%list) as HP0
    by reflexivity.
  (* three rounds *)
  destruct (failing_round s0 _ (Stream.timers st) _ _ _ _ ds0 HC0 eq_refl
              ltac:(unfold Stream.maxReconnects; lia) H0) as (HC1 & HT1 & HP1 & _).
  fold c t in HC1, HT1, HP1. set (s1 := Stream.run s0 _) in *.
  destruct (failing_round s1 _ _ _ _ _ _ ds1 HC1 HT1
              ltac:(unfold Stream.maxReconnects; lia) H1) as (HC2 & HT2 & HP2 & _).
  rewrite !length_app in HC2, HT2, HP2. cbn [length] in HC2, HT2, HP2.
  fold c t in HC2, HT2, HP2. set (s2 := Stream.run s1 _) in *.
  destruct (failing_round s2 _ _ _ _ _ _ ds2 HC2 HT2
              ltac:(unfold Stream.maxReconnects; lia) H2) as (HC3 & HT3 & HP3 & _).
  rewrite !length_app in HC3, HT3, HP3. cbn [length] in HC3, HT3, HP3.
  fold c t in HC3, HT3, HP3. set (s3 := Stream.run s2 _) in *.
  rewrite HP2, HP1, HP0 in HP3.
  (* the fourth failure *)
  destruct (failing_last s3 _ _ _ _ _ ds3 HC3 HP3
              ltac:(unfold Stream.maxReconnects; lia) H3) as (HC4 & HT4 & HP4 & _).
  rewrite !length_app in HC4, HT4, HP4. cbn [length] in HC4, HT4, HP4.
  fold c t in HC4, HT4, HP4.
  (* the schedule, round by round *)
  assert (forall last,
            Stream.run st
              (Stream.Call jobId emoji ::
               (Stream.frames c ds0 ++ [Stream.Failure c; Stream.Timeout t]) ++
               (Stream.frames (c + 1) ds1
                  ++ [Stream.Failure (c + 1); Stream.Timeout (t + 1)]) ++
               (Stream.frames (c + 2) ds2
                  ++ [Stream.Failure (c + 2); Stream.Timeout (t + 2)]) ++
               last)%list
            = Stream.run s3 last) as Hrounds.
  { intros last.
    replace (c + 2)%nat with (c + 1 + 1)%nat by lia.
    replace (t + 2)%nat with (t + 1 + 1)%nat by lia.
    rewrite run_cons. fold s0.
    rewrite (run_app s0). fold s1.
    rewrite (run_app s1). fold s2.
    by rewrite (run_app s2). }
  replace (c + 1 + 1 + 1)%nat with (c + 3)%nat in HC4, HT4, HP4 by lia.
  assert (schedule =
            Stream.Call jobId emoji ::
            (Stream.frames c ds0 ++ [Stream.Failure c; Stream.Timeout t]) ++
            (Stream.frames (c + 1) ds1
               ++ [Stream.Failure (c + 1); Stream.Timeout (t + 1)]) ++
            (Stream.frames (c + 2) ds2
               ++ [Stream.Failure (c + 2); Stream.Timeout (t + 2)]) ++
            (Stream.frames (c + 3) ds3 ++ [Stream.Failure (c + 3)]))%list
    as Hschedule.
  { unfold schedule, Stream.failing_call. fold c t.
    by rewrite <- !app_assoc. }
  assert (st' = Stream.run s3 (Stream.frames (c + 3) ds3 ++ [Stream.Failure (c + 3)]))
    as Hend.
  { unfold st'. by rewrite Hschedule, Hrounds. }
  repeat apply conj.
  - by rewrite Hend, HP4.
  - rewrite Hend, HT4, HT3. by rewrite <- !app_assoc.
  - reflexivity.
  - rewrite Hend, HC4. by rewrite <- !app_assoc.
  - intros es1 es2 Hsplit Hne1 Hne2.
    destruct (exists_last Hne2) as (es2' & e & ->).
    set (body :=
           (Stream.Call jobId emoji ::
            (Stream.frames c ds0 ++ [Stream.Failure c; Stream.Timeout t]) ++
            (Stream.frames (c + 1) ds1
               ++ [Stream.Failure (c + 1); Stream.Timeout (t + 1)]) ++
            (Stream.frames (c + 2) ds2
               ++ [Stream.Failure (c + 2); Stream.Timeout (t + 2)]) ++
            Stream.frames (c + 3) ds3)%list).
    assert (schedule = (body ++ [Stream.Failure (c + 3)])%list) as Hbody.
    { rewrite Hschedule. unfold body.
      by rewrite <- app_comm_cons, <- !app_assoc. }
    rewrite Hbody, app_assoc in Hsplit.
    apply app_inj_tail in Hsplit as [Hsplit _].
    apply (pending_before st es1 es2').
    + rewrite <- Hsplit. unfold body. rewrite Hrounds.
      destruct (frames_quiet s3 (c + 3) ds3 H3) as (-> & _).
      rewrite HP3. by apply list_lookup_middle.
    + destruct es1 as [|e1 es1]; [done|].
      assert (e1 = Stream.Call jobId emoji) as ->.
      { unfold body in Hsplit. by injection Hsplit. }
      rewrite run_cons. fold s0.
      pose proof (promises_grow s0 es1) as Hgrow.
      rewrite HP0, length_app in Hgrow. simpl in Hgrow. fold p in Hgrow. lia.
Qed.


(** C1, as the code has it: a call of [streamJobProgress], made in any
    state, whose channels all fail -- each after any frames without terminal
    status.  The promise of the call is rejected with
    [Error('Stream connection failed after retries')] by the failure of the
    fourth channel and is pending at every moment before, so that a single
    failure rejects nothing.  The three failures before armed one timer
    each, with delays 2000, 4000 and 8000 ms, that is [baseDelay * 2 ^ n]
    for the counter [n] = 0, 1, 2 of the channel that failed; the three
    channels reopened have the counters 1, 2 and 3; after the fourth
    failure no timer is armed and no channel is open.  The error is a plain
    [Error], as is every error any promise of the client is ever rejected
    with. *)
Theorem stream_gives_up_after_three_reconnects
    (st : Stream.State) (jobId emoji : string) (ds0 ds1 ds2 ds3 : list json) :
  let quiet := Forall (fun d => Stream.terminal (get "status" d) = false) in
  quiet ds0 -> quiet ds1 -> quiet ds2 -> quiet ds3 ->
  let schedule := Stream.failing_call st jobId emoji ds0 ds1 ds2 ds3 in
  let st' := Stream.run st schedule in
  let call n := Stream.mkClosure jobId emoji n (length (Stream.promises st)) in
  Stream.promises st'
  = (Stream.promises st
       ++ [Rejected (new_Error "Stream connection failed after retries")])%list /\
  Stream.timers st'
  = (Stream.timers st
       ++ [Stream.mkTimer 2000 (call 1%nat) true;
           Stream.mkTimer 4000 (call 2%nat) true;
           Stream.mkTimer 8000 (call 3%nat) true])%list /\
  [2000; 4000; 8000] = map (fun n => Stream.baseDelay * 2 ^ Z.of_nat n) [0; 1; 2]%nat /\
  Stream.channels st'
  = (Stream.channels st
       ++ [Stream.mkChannel (call 0%nat) true; Stream.mkChannel (call 1%nat) true;
           Stream.mkChannel (call 2%nat) true; Stream.mkChannel (call 3%nat) true])%list /\
  (forall es1 es2,
     schedule = (es1 ++ es2)%list -> es1 <> [] -> es2 <> [] ->
     Stream.promises (Stream.run st es1) !! length (Stream.promises st)
     = Some Pending) /\
  name (new_Error "Stream connection failed after retries") = "Error" /\
  (forall es q e,
     Stream.promises (Stream.run Stream.init es) !! q = Some (Rejected e) ->
     name e = "Error").
Proof.
  intros quiet H0 H1 H2 H3 schedule st' call.
  destruct (failing_call_gives_up st jobId emoji ds0 ds1 ds2 ds3 H0 H1 H2 H3)
    as (HP & HT & HD & HC & Hpending).
  do 5 (split; [done|]). split; [reflexivity|].
  intros es q e. apply rejections_plain.
Qed.

Lemma stream_gives_up_after_three_reconnects_witness :
  let traffic := [JObj [("status", JStr "running"); ("message", JStr "fetching")]] in
  let st' :=
    Stream.run Stream.init
      (Stream.failing_call Stream.init "job-1" "⏳"
         traffic [] [JObj [("heartbeat", JBool true)]] []) in
  Stream.promises st'
  = [Rejected (new_Error "Stream connection failed after retries")] /\
  map Stream.delay (Stream.timers st') = [2000; 4000; 8000].
Proof.
  intros traffic st'.
  pose proof (stream_gives_up_after_three_reconnects
                Stream.init "job-1" "⏳"
                traffic [] [JObj [("heartbeat", JBool true)]] []
                ltac:(repeat constructor) ltac:(repeat constructor)
                ltac:(repeat constructor) ltac:(repeat constructor))
    as (Hpromise & Htimers & _).
  split; [exact Hpromise|].
  fold st' in Htimers. rewrite Htimers. reflexivity.
Defined.

(** C1 does not hold as written: the error that ends the retries is no
    kind of its own.  A job that fails with the text of that error rejects
    the promise with the very same error, and the error has the kind of
    every other failure; a single connection failure rejects nothing. *)
Lemma stream_exhaustion_error_same_kind :
  let exhausted :=
    Stream.promises (Stream.run Stream.init (Samples.always_failing "job-1" "⏳")) in
  let failed text :=
    Stream.promises
      (Stream.run Stream.init
         [Stream.Call "job-1" "⏳";
          Stream.Message 0 (Samples.failed_frame text)]) in
  exhausted = [Rejected (new_Error "Stream connection failed after retries")] /\
  failed "Stream connection failed after retries" = exhausted /\
  failed "Out of memory" = [Rejected (new_Error "Out of memory")] /\
  name (new_Error "Stream connection failed after retries")
  = name (new_Error "Out of memory") /\
  Stream.promises
    (Stream.run Stream.init [Stream.Call "job-1" "⏳"; Stream.Failure 0])
  = [Pending].
Proof. repeat split; reflexivity. Qed.

(** The progress lines of the same run, with no frames at all. *)
Example always_failing_progress :
  Stream.progress (Stream.run Stream.init (Samples.always_failing "job-1" "⏳"))
  = [(JStr "⚠️ Connection lost. Reconnecting in 2s...", "info");
     (JStr "⚠️ Connection lost. Reconnecting in 4s...", "info");
     (JStr "⚠️ Connection lost. Reconnecting in 8s...", "info");
     (JStr "❌ Connection failed after 3 attempts", "error")].
Proof. vm_compute. reflexivity. Qed.

Example always_failing_is_failing_call :
  Samples.always_failing "job-1" "⏳"
  = Stream.failing_call Stream.init "job-1" "⏳" [] [] [] [].
Proof. reflexivity. Qed.

(** * Further properties *)

(** ** Polling: termination, timeout, repeated progress *)

Section PollBounds.

Import Poll.

Variable backend : nat -> reply.
Variable onProgress : bool.
Variable maxWaitMs startTime : Z.

Local Abbreviation loop' := (loop backend onProgress maxWaitMs startTime).

(** Each request so far was followed by a full wait. *)
Local Abbreviation paced w :=
  (pollInterval * Z.of_nat (polls w) <= now w - startTime).

Lemma loop_request_bound fuel w p w' :
  paced w ->
  loop' fuel w = Some (p, w') ->
  polls w' = polls w \/
  pollInterval * (Z.of_nat (polls w') - 1) < maxWaitMs.
Proof.
  revert w. induction fuel as [|fuel IH]; intros w Hpace H; [discriminate|].
  destruct (Z.lt_ge_cases (now w - startTime) maxWaitMs) as [Hlt|Hge].
  - destruct (try_body onProgress (outcome (backend (polls w)))) as [calls q] eqn:Hbody.
    rewrite (loop_pass _ _ _ _ _ _ _ _ Hlt Hbody) in H.
    assert (pollInterval * (Z.of_nat (S (polls w)) - 1) < maxWaitMs) as Hlast.
    { unfold pollInterval in *. lia. }
    destruct q.
    + injection H as _ <-. by right.
    + injection H as _ <-. by right.
    + apply IH in H.
      * destruct H as [H|H]; [|by right]. right. by rewrite H.
      * simpl. pose proof (N2Z.is_nonneg (latency (backend (polls w)))).
        unfold pollInterval in *. lia.
  - rewrite loop_deadline in H by done. injection H as _ <-. by left.
Qed.

(** When no answer ends the job, the loop runs into the deadline: it
    rejects with the timeout error, every request was followed by a wait,
    and the values handed to [onProgress] are those of all the passes. *)
Lemma loop_runs_out fuel w calls :
  (forall i, try_body onProgress (outcome (backend i)) = (calls i, Wait)) ->
  maxWaitMs - (now w - startTime) <= Z.of_nat fuel * pollInterval ->
  exists w',
    loop' (S fuel) w
    = Some (Rejected (new_Error "Timeout waiting for job completion"), w') /\
    maxWaitMs <= now w' - startTime /\
    (polls w <= polls w')%nat /\
    sleeps w' = (sleeps w ++ replicate (polls w' - polls w) pollInterval)%list /\
    delivered w'
    = (delivered w ++ concat (map calls (seq (polls w) (polls w' - polls w))))%list.
Proof.
  intros Hwait. revert w. induction fuel as [|fuel IH]; intros w Hfuel.
  - exists w. rewrite loop_deadline by (unfold pollInterval in *; lia).
    rewrite Nat.sub_diag. simpl. rewrite !app_nil_r.
    repeat split; try done. unfold pollInterval in *. lia.
  - destruct (Z.lt_ge_cases (now w - startTime) maxWaitMs) as [Hlt|Hge].
    + rewrite (loop_pass _ _ _ _ _ _ _ _ Hlt (Hwait (polls w))).
      destruct (IH (after_wait (Poll.after_request backend (calls (polls w)) w)))
        as (w' & Hloop & Hend & Hpolls & Hsleeps & Hdel).
      { simpl. pose proof (N2Z.is_nonneg (latency (backend (polls w)))).
        unfold pollInterval in *. lia. }
      simpl in Hpolls, Hsleeps, Hdel.
      exists w'. split; [done|]. split; [done|]. split; [lia|].
      replace (polls w' - polls w)%nat with (S (polls w' - S (polls w))) by lia.
      split.
      * rewrite Hsleeps, <- app_assoc. done.
      * rewrite Hdel, <- app_assoc. done.
    + exists w. rewrite loop_deadline by done.
      rewrite Nat.sub_diag. simpl. rewrite !app_nil_r. done.
Qed.

End PollBounds.

(** A job record whose status is a string other than the three terminal
    ones makes the pass wait. *)
Lemma try_body_waits onProgress job s :
  get "status" job = Some (JStr s) -> s <> "" ->
  Stream.terminal (Some (JStr s)) = false ->
  Poll.try_body onProgress (Poll.Body job)
  = (Poll.progress_calls onProgress job, Poll.Wait).
Proof.
  intros Hs Hne Hterm. pose proof (get_Some_not_null _ _ _ Hs) as Hnull.
  apply terminal_false in Hterm as (H1 & H2 & H3).
  unfold Poll.try_body. rewrite (transport_error_status _ _ Hs) by done.
  rewrite Hs, H1, H2, H3. by destruct job.
Qed.

Section PollSchedule.

Import Poll.

Variable backend : nat -> reply.
Variable onProgress : bool.
Variable maxWaitMs startTime : Z.

Local Abbreviation sent_at := (Schedule.sent_at backend startTime).

(** At the head of the loop the clock is the time of the next request,
    and every request so far has been followed by its wait. *)
Lemma loop_schedule fuel w p w' :
  now w = sent_at (polls w) ->
  length (sleeps w) = polls w ->
  (forall i, (i < polls w)%nat -> sent_at i - startTime < maxWaitMs) ->
  loop backend onProgress maxWaitMs startTime fuel w = Some (p, w') ->
  (forall i, (i < polls w')%nat -> sent_at i - startTime < maxWaitMs) /\
  ((now w' = sent_at (polls w') /\ maxWaitMs <= now w' - startTime /\
    length (sleeps w') = polls w') \/
   exists k, polls w' = S k /\
             now w' = sent_at k + Z.of_N (latency (backend k)) /\
             length (sleeps w') = k).
Proof.
  revert w. induction fuel as [|fuel IH]; intros w Hnow Hslept Hsent H;
    [discriminate|].
  destruct (Z.lt_ge_cases (now w - startTime) maxWaitMs) as [Hlt|Hge].
  - destruct (try_body onProgress (outcome (backend (polls w)))) as [calls q] eqn:Hbody.
    rewrite (loop_pass _ _ _ _ _ _ _ _ Hlt Hbody) in H.
    assert (forall i, (i < S (polls w))%nat -> sent_at i - startTime < maxWaitMs)
      as Hsent'.
    { intros i Hi. destruct (decide (i = polls w)) as [->|Hne].
      - by rewrite <- Hnow.
      - apply Hsent. lia. }
    destruct q.
    + injection H as _ <-. split; [done|]. right. exists (polls w).
      simpl. by rewrite Hnow.
    + injection H as _ <-. split; [done|]. right. exists (polls w).
      simpl. by rewrite Hnow.
    + apply IH in H; [done| | |done].
      * simpl. by rewrite Hnow.
      * simpl. rewrite length_app, Hslept. simpl. lia.
  - rewrite loop_deadline in H by done. injection H as _ <-.
    split; [done|]. by left.
Qed.

End PollSchedule.

(** X1: [pollJobCompletion] sends no request once [maxWaitMs] has passed.
    Whenever the poll has ended, each request it made was sent less than
    [maxWaitMs] after the start -- request [i] goes out when the [i]
    requests before it have been answered and each has been followed by
    its wait of 1000 ms.  The clock at the end is the time of the next
    request, which the deadline has kept from being sent, or the time the
    last answer came in.  So the requests number 0, or one more than a
    multiple of 1000 ms below [maxWaitMs], and none is made when
    [maxWaitMs] is not positive. *)
Theorem poll_no_request_after_deadline
    (backend : nat -> Poll.reply) (onProgress : bool) (maxWaitMs startTime : Z)
    (p : promise) (w : Poll.world) :
  Poll.pollJobCompletion backend onProgress maxWaitMs startTime = Some (p, w) ->
  (forall i, (i < Poll.polls w)%nat ->
     Schedule.sent_at backend startTime i - startTime < maxWaitMs) /\
  ((Poll.now w = Schedule.sent_at backend startTime (Poll.polls w) /\
    maxWaitMs <= Poll.now w - startTime /\
    length (Poll.sleeps w) = Poll.polls w) \/
   exists k, Poll.polls w = S k /\
             Poll.now w = Schedule.sent_at backend startTime k
                          + Z.of_N (Poll.latency (backend k)) /\
             length (Poll.sleeps w) = k) /\
  (Poll.polls w = 0%nat \/ 1000 * (Z.of_nat (Poll.polls w) - 1) < maxWaitMs) /\
  (maxWaitMs <= 0 -> Poll.polls w = 0%nat).
Proof.
  intros H. unfold Poll.pollJobCompletion in H.
  apply loop_schedule in H as Hschedule;
    [|reflexivity|reflexivity|simpl; intros; lia].
  destruct Hschedule as [Hall Hend].
  split; [done|]. split; [done|].
  assert (Poll.polls w = 0%nat \/ 1000 * (Z.of_nat (Poll.polls w) - 1) < maxWaitMs)
    as Hbound.
  { apply loop_request_bound in H; [|simpl; unfold Poll.pollInterval; lia].
    destruct H as [H|H]; [by left|by right]. }
  split; [done|]. intros Hneg. destruct Hbound as [|Hb]; [done|]. lia.
Qed.

Lemma poll_no_request_after_deadline_witness :
  (forall i, (i < 4)%nat -> Schedule.sent_at Samples.slow_job 0 i - 0 < 120000) /\
  Schedule.sent_at Samples.slow_job 0 3 = 3060.
Proof.
  split; [|reflexivity].
  exact (proj1 (poll_no_request_after_deadline
                  Samples.slow_job false 120000 0
                  (Resolved (Some Samples.payload))
                  (Poll.mkWorld 3080 4 [] [1000; 1000; 1000]) eq_refl)).
Defined.

(** X2: against a backend whose job never reaches a terminal status, the
    poll rejects with 'Timeout waiting for job completion' itself (the
    [catch] block does not touch it), not before [maxWaitMs] has passed,
    and every request it made was followed by a wait of 1000 ms. *)
Theorem poll_times_out
    (backend : nat -> Poll.reply) (onProgress : bool) (maxWaitMs startTime : Z) :
  (forall i, exists job s,
      Poll.outcome (backend i) = Poll.Body job /\
      get "status" job = Some (JStr s) /\ s <> "" /\
      Stream.terminal (Some (JStr s)) = false) ->
  exists w,
    Poll.pollJobCompletion backend onProgress maxWaitMs startTime
    = Some (Rejected (new_Error "Timeout waiting for job completion"), w) /\
    maxWaitMs <= Poll.now w - startTime /\
    Poll.sleeps w = replicate (Poll.polls w) 1000.
Proof.
  intros Hrun.
  destruct (loop_runs_out backend onProgress maxWaitMs startTime
              (Z.to_nat (maxWaitMs / Poll.pollInterval) + 1)
              (Poll.mkWorld startTime 0 [] [])
              (fun i => fst (Poll.try_body onProgress (Poll.outcome (backend i)))))
    as (w & Hloop & Hend & _ & Hsleeps & _).
  - intros i. destruct (Hrun i) as (job & s & -> & Hs & Hne & Hterm).
    by rewrite (try_body_waits _ _ _ Hs Hne Hterm).
  - simpl. unfold Poll.pollInterval.
    destruct (Z.lt_ge_cases maxWaitMs 0) as [Hneg|Hpos]; [lia|].
    pose proof (Z.div_mod maxWaitMs 1000 ltac:(lia)) as Hdm.
    pose proof (Z.mod_pos_bound maxWaitMs 1000 ltac:(lia)) as Hm.
    assert (0 <= maxWaitMs / 1000) by (apply Z.div_pos; lia).
    lia.
  - exists w. unfold Poll.pollJobCompletion, Poll.enough.
    replace (Z.to_nat (maxWaitMs / Poll.pollInterval) + 2)%nat
      with (S (Z.to_nat (maxWaitMs / Poll.pollInterval) + 1)) by lia.
    split; [done|]. split; [done|].
    simpl in Hsleeps. by rewrite Nat.sub_0_r in Hsleeps.
Qed.

Lemma poll_times_out_witness :
  Poll.pollJobCompletion Cases.never_ending true 3000 0
  = Some (Rejected (new_Error "Timeout waiting for job completion"),
          Poll.mkWorld 3750 3
            [JStr "scraping"; JStr "scraping"; JStr "scraping"]
            [1000; 1000; 1000]).
Proof.
  destruct (poll_times_out Cases.never_ending true 3000 0) as (w & H & _).
  - intros i. exists Cases.running_with_log, "running". by repeat split.
  - reflexivity.
Defined.

(** X3: the callback is handed the newest log entry on every poll, whether
    or not the log has changed since the poll before: against a backend
    whose running job keeps [entry] as the last entry of its log, a poll
    that makes [n] requests calls [onProgress] [n] times with [entry]. *)
Theorem poll_repeats_last_entry
    (backend : nat -> Poll.reply) (maxWaitMs startTime : Z) (entry : json) :
  (forall i, exists job older,
      Poll.outcome (backend i) = Poll.Body job /\
      get "status" job = Some (JStr "running") /\
      get "progress_log" job = Some (JArr (older ++ [entry]))) ->
  exists p w,
    Poll.pollJobCompletion backend true maxWaitMs startTime = Some (p, w) /\
    Poll.delivered w = replicate (Poll.polls w) entry.
Proof.
  intros Hrun.
  destruct (loop_runs_out backend true maxWaitMs startTime
              (Z.to_nat (maxWaitMs / Poll.pollInterval) + 1)
              (Poll.mkWorld startTime 0 [] [])
              (fun _ => [entry]))
    as (w & Hloop & _ & _ & _ & Hdel).
  - intros i. destruct (Hrun i) as (job & older & -> & Hs & Hlog).
    by rewrite (try_body_running _ _ Hs), (progress_calls_last _ _ _ Hlog).
  - simpl. unfold Poll.pollInterval.
    destruct (Z.lt_ge_cases maxWaitMs 0) as [Hneg|Hpos]; [lia|].
    pose proof (Z.div_mod maxWaitMs 1000 ltac:(lia)) as Hdm.
    pose proof (Z.mod_pos_bound maxWaitMs 1000 ltac:(lia)) as Hm.
    assert (0 <= maxWaitMs / 1000) by (apply Z.div_pos; lia).
    lia.
  - eexists _, w. unfold Poll.pollJobCompletion, Poll.enough.
    replace (Z.to_nat (maxWaitMs / Poll.pollInterval) + 2)%nat
      with (S (Z.to_nat (maxWaitMs / Poll.pollInterval) + 1)) by lia.
    split; [done|]. simpl in Hdel. rewrite Hdel, Nat.sub_0_r.
    clear. generalize 0%nat. induction (Poll.polls w) as [|n IH]; intros k; [done|].
    simpl. by rewrite IH.
Qed.

Lemma poll_repeats_last_entry_witness :
  exists p w,
    Poll.pollJobCompletion Cases.never_ending true 3000 0 = Some (p, w) /\
    Poll.delivered w = replicate (Poll.polls w) (JStr "scraping").
Proof.
  apply (poll_repeats_last_entry Cases.never_ending 3000 0 (JStr "scraping")).
  intros i. exists Cases.running_with_log, [JStr "queued"]. by repeat split.
Defined.

(** ** Streaming: one live connection for each call *)

Section OneLive.

Import Stream.
Local Open Scope list_scope.

Lemma filter_none {A} (P : A -> bool) (l : list A) :
  (forall i x, l !! i = Some x -> P x = false) -> List.filter P l = [].
Proof.
  induction l as [|a l IH]; intros H; [done|]. simpl.
  rewrite (H 0%nat a eq_refl). apply IH. intros i x Hi. by apply (H (S i)).
Qed.

Lemma filter_at_most_one {A} (P : A -> bool) (l : list A) :
  (forall i j x y, l !! i = Some x -> l !! j = Some y ->
                   P x = true -> P y = true -> i = j) ->
  (length (List.filter P l) <= 1)%nat.
Proof.
  induction l as [|a l IH]; intros H; [simpl; lia|]. simpl.
  destruct (P a) eqn:Ha.
  - rewrite filter_none; [simpl; lia|].
    intros i x Hi. destruct (P x) eqn:Hx; [|done].
    discriminate (H 0%nat (S i) a x eq_refl Hi Ha Hx).
  - apply IH. intros i j x y Hi Hj Hx Hy.
    by injection (H (S i) (S j) x y Hi Hj Hx Hy).
Qed.

Lemma open_channel_listening st p c ch :
  channels st !! c = Some ch ->
  negb (closed ch) && Nat.eqb (outer (env ch)) p = true ->
  listening st c (env ch) /\ outer (env ch) = p.
Proof.
  intros Hc [Hcl Hp]%andb_true_iff. apply Nat.eqb_eq in Hp.
  apply negb_true_iff in Hcl. split; [by apply listening_lookup|done].
Qed.

Lemma armed_timer_armed st p t tm :
  timers st !! t = Some tm ->
  negb (fired tm) && Nat.eqb (outer (callback tm)) p = true ->
  armed st t (callback tm) /\ outer (callback tm) = p.
Proof.
  intros Ht [Hf Hp]%andb_true_iff. apply Nat.eqb_eq in Hp.
  apply negb_true_iff in Hf. split; [by apply armed_lookup|done].
Qed.

End OneLive.

(** X4: in every state the client can reach, a call of [streamJobProgress]
    has at most one live connection: counting the open channels and the
    timers not yet fired that belong to its promise gives at most one, and
    none once the promise is settled. *)
Theorem stream_one_live_connection (es : list Stream.event) (p : nat) :
  let st := Stream.run Stream.init es in
  (length (Live.open_channels p st) + length (Live.armed_timers p st) <= 1)%nat /\
  (Stream.promises st !! p <> Some Pending ->
   Live.open_channels p st = [] /\ Live.armed_timers p st = []).
Proof.
  intros st. pose proof (inv_reachable es) as [A B C D E]. fold st in A, B, C, D, E.
  assert (length (Live.open_channels p st) <= 1)%nat as Hch.
  { apply filter_at_most_one. intros i j x y Hi Hj Hx Hy.
    destruct (open_channel_listening st p i x Hi Hx) as [Hlx Hpx].
    destruct (open_channel_listening st p j y Hj Hy) as [Hly Hpy].
    apply (C i j _ _ Hlx Hly). congruence. }
  assert (length (Live.armed_timers p st) <= 1)%nat as Htm.
  { apply filter_at_most_one. intros i j x y Hi Hj Hx Hy.
    destruct (armed_timer_armed st p i x Hi Hx) as [Hlx Hpx].
    destruct (armed_timer_armed st p j y Hj Hy) as [Hly Hpy].
    apply (D i j _ _ Hlx Hly). congruence. }
  split.
  - destruct (Live.open_channels p st) as [|ch chs] eqn:Hopen; [simpl; lia|].
    assert (Live.armed_timers p st = []) as ->; [|simpl in *; lia].
    apply filter_none. intros t tm Ht.
    destruct (negb (Stream.fired tm) && _) eqn:Htm'; [|done]. exfalso.
    destruct (armed_timer_armed st p t tm Ht Htm') as [Harmed Hp].
    assert (ch ∈ Live.open_channels p st) as Hin by (rewrite Hopen; apply list_elem_of_here).
    apply list_elem_of_In, filter_In in Hin as [Hin Hch'].
    apply list_elem_of_In, list_elem_of_lookup in Hin as [c Hc].
    destruct (open_channel_listening st p c ch Hc Hch') as [Hl Hp'].
    apply (E c t _ _ Hl Harmed). congruence.
  - intros Hsettled. split; apply filter_none.
    + intros c ch Hc. destruct (negb (Stream.closed ch) && _) eqn:Hch'; [|done].
      destruct (open_channel_listening st p c ch Hc Hch') as [Hl Hp].
      apply A in Hl. unfold Stream.pending in Hl. by rewrite Hp in Hl.
    + intros t tm Ht. destruct (negb (Stream.fired tm) && _) eqn:Htm'; [|done].
      destruct (armed_timer_armed st p t tm Ht Htm') as [Hl Hp].
      apply B in Hl. unfold Stream.pending in Hl. by rewrite Hp in Hl.
Qed.

(** ** Streaming: a call that reconnects and then completes *)

Section Reconnecting.

Import Stream.
Local Open Scope list_scope.

Lemma after_rounds n : forall st C T j em a p,
  channels st = C ++ [mkChannel (mkClosure j em a p) false] ->
  timers st = T ->
  (a + n <= maxReconnects)%nat ->
  let st' := run st (Live.rounds n (length C) (length T)) in
  exists C' T',
    channels st' = (C ++ C') ++ [mkChannel (mkClosure j em (a + n) p) false] /\
    length C' = n /\
    Forall (fun ch => closed ch = true) C' /\
    timers st' = T ++ T' /\
    map delay T' = map (fun i => baseDelay * 2 ^ Z.of_nat i) (seq a n) /\
    Forall (fun tm => fired tm = true) T' /\
    promises st' = promises st.
Proof.
  induction n as [|n IH]; intros st C T j em a p HC HT Ha st'.
  - exists [], []. subst st'. simpl. rewrite !app_nil_r, Nat.add_0_r.
    repeat split; try done.
  - subst st'. cbn [Live.rounds].
    change (Failure (length C) :: Timeout (length T)
              :: Live.rounds n (S (length C)) (S (length T)))
      with ((frames (length C) [] ++ [Failure (length C); Timeout (length T)])
              ++ Live.rounds n (S (length C)) (S (length T))).
    rewrite run_app.
    destruct (failing_round st C T j em a p [] HC HT ltac:(lia) ltac:(constructor))
      as (HC1 & HT1 & HP1 & _).
    set (st1 := run st _) in *.
    destruct (IH st1 _ _ j em (a + 1)%nat p HC1 HT1 ltac:(lia))
      as (C' & T' & HC2 & Hlen & Hclosed & HT2 & Hdelay & Hfired & HP2).
    rewrite !length_app in HC2, HT2, HP2. cbn [length] in HC2, HT2, HP2.
    replace (length C + 1)%nat with (S (length C)) in * by lia.
    replace (length T + 1)%nat with (S (length T)) in * by lia.
    replace (a + 1)%nat with (S a) in * by lia.
    exists (mkChannel (mkClosure j em a p) true :: C'),
           (mkTimer (baseDelay * 2 ^ Z.of_nat a) (mkClosure j em (a + 1) p) true :: T').
    replace (a + S n)%nat with (S a + n)%nat by lia.
    repeat split.
    + rewrite HC2, <- !app_assoc. reflexivity.
    + simpl. by rewrite Hlen.
    + by constructor.
    + rewrite HT2, <- !app_assoc. replace (a + 1)%nat with (S a) by lia.
      reflexivity.
    + simpl. by rewrite Hdelay.
    + by constructor.
    + by rewrite HP2.
Qed.

End Reconnecting.

(** X5: reconnection does not show in the promise.  A call that loses its
    connection [n] times in a row, [n] at most 3, and then receives the
    frame that completes the job on the channel reopened last, resolves
    the promise of the call with that frame's result.  The [n] timers had
    the delays 2000 * 2 ^ i for i below [n], and in the end all [n] + 1
    channels are closed and all timers have fired. *)
Theorem stream_reconnects_then_completes
    (st : Stream.State) (jobId emoji : string) (n : nat) (d : json) :
  (n <= 3)%nat ->
  truthy (get "heartbeat" d) = false ->
  get "status" d = Some (JStr "completed") ->
  let st' := Stream.run st (Live.reconnecting_call st jobId emoji n (Some d)) in
  Stream.promises st' = (Stream.promises st ++ [Resolved (get "result" d)])%list /\
  exists C T,
    Stream.channels st' = (Stream.channels st ++ C)%list /\
    length C = S n /\
    Forall (fun ch => Stream.closed ch = true) C /\
    Stream.timers st' = (Stream.timers st ++ T)%list /\
    map Stream.delay T = map (fun i => 2000 * 2 ^ Z.of_nat i) (seq 0 n) /\
    Forall (fun tm => Stream.fired tm = true) T.
Proof.
  intros Hn Hh Hs st'. subst st'. unfold Live.reconnecting_call.
  rewrite run_cons, run_app.
  set (s0 := Stream.step st (Stream.Call jobId emoji)).
  set (cl0 := Stream.mkClosure jobId emoji 0 (length (Stream.promises st))).
  assert (Stream.channels s0
          = (Stream.channels st ++ [Stream.mkChannel cl0 false])%list) as HC0
    by reflexivity.
  destruct (after_rounds n s0 _ (Stream.timers st) _ _ _ _ HC0 eq_refl
              ltac:(unfold Stream.maxReconnects; simpl; lia))
    as (C' & T' & HC1 & Hlen & Hclosed & HT1 & Hdelay & Hfired & HP1).
  set (s1 := Stream.run s0 _) in *.
  assert (Stream.listening s1 (length (Stream.channels st) + n)
            (Stream.mkClosure jobId emoji n (length (Stream.promises st)))) as Hl.
  { unfold Stream.listening. rewrite HC1. apply list_lookup_middle.
    by rewrite length_app, Hlen. }
  cbn [Stream.run fold_left]. rewrite (step_message _ _ _ _ Hl).
  rewrite onmessage_completed by done. simpl.
  rewrite HP1, HC1, HT1.
  replace (length (Stream.channels st) + n)%nat
    with (length (Stream.channels st ++ C')) by (by rewrite length_app, Hlen).
  assert (Stream.promises s0 = (Stream.promises st ++ [Pending])%list) as ->
    by reflexivity.
  rewrite !alter_last. split; [done|].
  exists (C' ++ [Stream.mkChannel
                   (Stream.mkClosure jobId emoji n (length (Stream.promises st))) true])%list,
         T'.
  repeat split; try done.
  - by rewrite app_assoc.
  - rewrite length_app, Hlen. simpl. lia.
  - apply Forall_app. split; [done|]. by repeat constructor.
Qed.

Lemma stream_reconnects_then_completes_witness :
  Stream.promises
    (Stream.run Stream.init
       (Live.reconnecting_call Stream.init "job-1" "⏳" 2 Samples.completed_frame))
  = [Resolved (Some Samples.payload)].
Proof.
  exact (proj1 (stream_reconnects_then_completes
                  Stream.init "job-1" "⏳" 2
                  (JObj [("status", JStr "completed"); ("result", Samples.payload)])
                  ltac:(lia) eq_refl eq_refl)).
Defined.

(** ** A pipeline from the answer of its start request to its end *)

Section PipelineLemmas.

Import Stream Pipeline.
Local Open Scope list_scope.

Lemma run_start_accepted k data app :
  data <> JNull ->
  Launch.run_start k (Launch.Response true (inr data)) app
  = (None,
     Launch.mkApp (<[Launch.slot k := get "job_id" data]> (Launch.currentJobIds app))
       (streamJobProgress (Launch.template (get "job_id" data))
                          (Launch.stream_emoji k) 0 (Launch.streams app))).
Proof. intros Hnull. by destruct data. Qed.

Lemma await_pending p st e es :
  promises st !! p = Some Pending ->
  await p st (e :: es) = await p (step st e) es.
Proof. intros H. simpl. by rewrite H. Qed.

Lemma await_settled p st es r :
  promises st !! p = Some r -> settled r = true ->
  await p st es = Some (r, st, es).
Proof. intros H Hs. destruct es; simpl; rewrite H; by destruct r. Qed.

Lemma await_frames p st c ds es :
  promises st !! p = Some Pending ->
  Forall (fun d => terminal (get "status" d) = false) ds ->
  await p st (frames c ds ++ es) = await p (run st (frames c ds)) es.
Proof.
  intros Hp Hds. revert st Hp. induction Hds as [|d ds Hd Hds IH]; intros st Hp; [done|].
  change (frames c (d :: ds) ++ es)
    with (Message c (Some d) :: (frames c ds ++ es)).
  change (frames c (d :: ds)) with (Message c (Some d) :: frames c ds).
  rewrite (await_pending _ _ _ _ Hp), run_cons. apply IH.
  destruct (frames_quiet st c [d] ltac:(by constructor)) as (HP & _).
  cbn [frames map run fold_left] in HP. by rewrite HP.
Qed.

Lemma message_frames_quiet ms :
  Forall (fun d => terminal (get "status" d) = false) (message_frames ms).
Proof. induction ms; by constructor. Qed.

Lemma message_frames_progress st c cl ms :
  listening st c cl ->
  Forall (fun m => truthy (Some m) = true) ms ->
  progress (run st (frames c (message_frames ms)))
  = progress st ++ map (fun m => (m, "info")) ms.
Proof.
  intros Hl Hms. revert st Hl. induction Hms as [|m ms Hm _ IH]; intros st Hl.
  - simpl. by rewrite app_nil_r.
  - unfold message_frames, frames. cbn [map]. rewrite run_cons.
    fold (message_frames ms). fold (frames c (message_frames ms)).
    rewrite (step_message _ _ _ _ Hl).
    rewrite (onmessage_message c cl st _ m) by done.
    rewrite IH by done. simpl. by rewrite <- app_assoc.
Qed.

End PipelineLemmas.

(** X6: a pipeline whose start request is accepted, whose stream then
    delivers frames with messages and at last the frame that completes the
    job.  The [run...] function throws nothing; the result of the last
    frame is stored in the result property of the pipeline, and no other
    result property changes; the progress log gains the messages in their
    order, then the line '<emoji> Complete!', then the closing line of the
    pipeline.  Events that come later are not looked at. *)
Theorem pipeline_completes
    (k : Launch.pipeline) (data : json) (ms : list json) (d : json)
    (rest : list Stream.event) (s : Pipeline.Session) :
  data <> JNull ->
  Forall (fun m => truthy (Some m) = true) ms ->
  truthy (get "heartbeat" d) = false ->
  get "status" d = Some (JStr "completed") ->
  let before := Launch.streams (Pipeline.app s) in
  let c := length (Stream.channels before) in
  let es := (Stream.frames c (Pipeline.message_frames ms)
               ++ Stream.Message c (Some d) :: rest)%list in
  exists s',
    Pipeline.run_pipeline k (Launch.Response true (inr data)) es s
    = Some (None, s', rest) /\
    Pipeline.results s'
    = <[Pipeline.results_slot k := get "result" d]> (Pipeline.results s) /\
    Stream.progress (Launch.streams (Pipeline.app s'))
    = (Stream.progress before
         ++ map (fun m => (m, "info")) ms
         ++ [(JStr (Launch.stream_emoji k +:+ " Complete!"), "info");
             (JStr (Pipeline.completed_line k), "info")])%list /\
    Stream.promises (Launch.streams (Pipeline.app s'))
    = (Stream.promises before ++ [Resolved (get "result" d)])%list.
Proof.
  intros Hdata Hms Hh Hs before c es.
  unfold Pipeline.run_pipeline. rewrite (run_start_accepted _ _ _ Hdata).
  cbn [Launch.streams]. fold before.
  set (cl := Stream.mkClosure (Launch.template (get "job_id" data))
               (Launch.stream_emoji k) 0 (length (Stream.promises before))).
  set (st0 := Stream.streamJobProgress _ _ _ _).
  assert (Stream.listening st0 c cl) as Hl0.
  { unfold Stream.listening. simpl. by apply list_lookup_middle. }
  assert (Stream.promises st0 = (Stream.promises before ++ [Pending])%list) as HP0
    by reflexivity.
  assert (Stream.promises st0 !! length (Stream.promises before) = Some Pending) as Hp0.
  { rewrite HP0. by apply list_lookup_middle. }
  subst es. rewrite (await_frames _ _ _ _ _ Hp0 (message_frames_quiet ms)).
  destruct (frames_quiet st0 c _ (message_frames_quiet ms)) as (HP1 & HC1 & _).
  pose proof (message_frames_progress st0 c cl ms Hl0 Hms) as Hprog.
  set (st1 := Stream.run st0 _) in *.
  assert (Stream.listening st1 c cl) as Hl1.
  { unfold Stream.listening. by rewrite HC1. }
  rewrite await_pending by (by rewrite HP1).
  rewrite (step_message _ _ _ _ Hl1), onmessage_completed by done.
  set (st2 := Stream.settle _ _ _).
  assert (Stream.promises st2
          = (Stream.promises before ++ [Resolved (get "result" d)])%list) as HP2.
  { subst st2. simpl. rewrite HP1, HP0. by rewrite alter_last. }
  rewrite (await_settled _ _ _ (Resolved (get "result" d)));
    [|rewrite HP2; by apply list_lookup_middle|done].
  eexists. split; [reflexivity|]. cbn [Pipeline.results Pipeline.app Launch.streams].
  split; [done|]. split; [|done].
  subst st2. simpl. rewrite Hprog. simpl. by rewrite <- !app_assoc.
Qed.

Lemma pipeline_completes_witness :
  exists s',
    Pipeline.run_pipeline Launch.BiasCheck
      (Launch.Response true (inr (JObj [("job_id", JStr "j7")])))
      [Stream.Message 0 (Some (JObj [("message", JStr "fetching")]));
       Stream.Message 0 (Some (JObj [("message", JStr "scoring")]));
       Stream.Message 0 Samples.completed_frame]
      (Pipeline.mkSession (Launch.mkApp ∅ Stream.init) ∅)
    = Some (None, s', []) /\
    Pipeline.results s' !! "currentBiasResults" = Some (Some Samples.payload) /\
    Stream.progress (Launch.streams (Pipeline.app s'))
    = [(JStr "fetching", "info"); (JStr "scoring", "info");
       (JStr "📊 Complete!", "info"); (JStr "✅ Bias analysis completed", "info")].
Proof.
  destruct (pipeline_completes Launch.BiasCheck (JObj [("job_id", JStr "j7")])
              [JStr "fetching"; JStr "scoring"]
              (JObj [("status", JStr "completed"); ("result", Samples.payload)])
              [] (Pipeline.mkSession (Launch.mkApp ∅ Stream.init) ∅)
              ltac:(done) ltac:(by repeat constructor) eq_refl eq_refl)
    as (s' & Hrun & Hres & Hprog & _).
  exists s'. split; [exact Hrun|]. split.
  - rewrite Hres. apply lookup_insert_eq.
  - exact Hprog.
Defined.

Section PipelineRejected.

Import Stream Pipeline.
Local Open Scope list_scope.

(** The first frame on the channel of a pipeline is one that rejects. *)
Lemma run_pipeline_rejected k data d e line ty rest s :
  data <> JNull ->
  (forall st c cl,
     onmessage c cl (Some d) st
     = settle (outer cl) (Rejected e)
         (close c (addProgress (JStr (emoji cl +:+ line)) ty st))) ->
  let before := Launch.streams (app s) in
  let c := length (channels before) in
  exists s',
    run_pipeline k (Launch.Response true (inr data)) (Message c (Some d) :: rest) s
    = Some (Some e, s', rest) /\
    results s' = results s /\
    progress (Launch.streams (app s'))
    = progress before
        ++ [(JStr (Launch.stream_emoji k +:+ line), ty);
            (JStr (Launch.catch_label k +:+ message e), "error")] /\
    promises (Launch.streams (app s')) = promises before ++ [Rejected e] /\
    activeEventSources (Launch.streams (app s')) = activeEventSources before ++ [c].
Proof.
  intros Hdata Hd before c.
  unfold run_pipeline. rewrite (run_start_accepted _ _ _ Hdata).
  cbn [Launch.streams]. fold before.
  set (cl := mkClosure (Launch.template (get "job_id" data))
               (Launch.stream_emoji k) 0 (length (promises before))).
  set (st0 := streamJobProgress _ _ _ _).
  assert (listening st0 c cl) as Hl0.
  { unfold listening. simpl. by apply list_lookup_middle. }
  assert (promises st0 = promises before ++ [Pending]) as HP0 by reflexivity.
  rewrite await_pending by (rewrite HP0; by apply list_lookup_middle).
  rewrite (step_message _ _ _ _ Hl0), Hd.
  set (st2 := settle _ _ _).
  assert (promises st2 = promises before ++ [Rejected e]) as HP2.
  { subst st2. simpl. by rewrite alter_last. }
  rewrite (await_settled _ _ _ (Rejected e));
    [|rewrite HP2; by apply list_lookup_middle|done].
  eexists. split; [reflexivity|]. cbn [results app Launch.streams].
  split; [done|]. split; [|split; [done|]].
  - subst st2. simpl. by rewrite <- !app_assoc.
  - reflexivity.
Qed.

End PipelineRejected.

(** X7: a pipeline whose start request is accepted and whose first frame
    reports the job failed or cancelled.  The [run...] function rethrows
    the error of the stream; no result property changes; the progress log
    gains two lines, the one of the stream and the one of the [catch]
    block, which is an error line also for a cancellation.
    [processContent] then shows the text of a failure in the error
    section, unless the text contains "cancelled" or "stopped", and shows
    nothing for a cancellation. *)
Theorem pipeline_failed_or_cancelled
    (k : Launch.pipeline) (type : string) (data d : json)
    (rest : list Stream.event) (s : Pipeline.Session) :
  data <> JNull ->
  truthy (get "heartbeat" d) = false ->
  let before := Launch.streams (Pipeline.app s) in
  let c := length (Stream.channels before) in
  let outcome :=
    Pipeline.run_pipeline k (Launch.Response true (inr data))
      (Stream.Message c (Some d) :: rest) s in
  (forall text,
     get "status" d = Some (JStr "failed") ->
     get "error" d = Some (JStr text) -> text <> "" ->
     exists s',
       outcome = Some (Some (new_Error text), s', rest) /\
       Pipeline.results s' = Pipeline.results s /\
       Stream.progress (Launch.streams (Pipeline.app s'))
       = (Stream.progress before
            ++ [(JStr (Launch.stream_emoji k +:+ " Failed: " +:+ text), "error");
                (JStr (Launch.catch_label k +:+ text), "error")])%list /\
       (includes "cancelled" text = false -> includes "stopped" text = false ->
        Pipeline.processContent_end type (Some (new_Error text))
        = Pipeline.ErrorShown text)) /\
  (get "status" d = Some (JStr "cancelled") ->
   exists s',
     outcome = Some (Some (new_Error "Job cancelled by user"), s', rest) /\
     Pipeline.results s' = Pipeline.results s /\
     Stream.progress (Launch.streams (Pipeline.app s'))
     = (Stream.progress before
          ++ [(JStr (Launch.stream_emoji k +:+ " Job cancelled"), "info");
              (JStr (Launch.catch_label k +:+ "Job cancelled by user"), "error")])%list /\
     Pipeline.processContent_end type (Some (new_Error "Job cancelled by user"))
     = Pipeline.NothingShown).
Proof.
  intros Hdata Hh before c outcome. split.
  - intros text Hs He Hne.
    assert (or_default (get "error" d) "Job failed" = text /\
            or_default (get "error" d) "Unknown error" = text) as [Ht1 Ht2].
    { unfold or_default. rewrite He, truthy_str.
      apply String.eqb_neq in Hne. by rewrite Hne. }
    destruct (run_pipeline_rejected k data d (new_Error text)
                (" Failed: " +:+ text) "error" rest s Hdata)
      as (s' & Hrun & Hres & Hprog & _).
    { intros st c' cl. rewrite onmessage_failed by done. by rewrite Ht1, Ht2. }
    exists s'. repeat split; try done.
    intros Hc Hst. unfold Pipeline.processContent_end, App.processContent_catch.
    simpl. rewrite Hc, Hst. simpl. apply String.eqb_neq in Hne. by rewrite Hne.
  - intros Hs.
    destruct (run_pipeline_rejected k data d (new_Error "Job cancelled by user")
                " Job cancelled" "info" rest s Hdata)
      as (s' & Hrun & Hres & Hprog & _).
    { intros st c' cl. by rewrite onmessage_cancelled. }
    exists s'. by repeat split.
Qed.

Lemma pipeline_failed_or_cancelled_witness :
  exists s',
    Pipeline.run_pipeline Launch.LieDetection
      (Launch.Response true (inr (JObj [("job_id", JStr "j7")])))
      [Stream.Message 0 Samples.cancelled_frame]
      (Pipeline.mkSession (Launch.mkApp ∅ Stream.init) ∅)
    = Some (Some (new_Error "Job cancelled by user"), s', []) /\
    Pipeline.results s' = ∅ /\
    Stream.progress (Launch.streams (Pipeline.app s'))
    = [(JStr "🕵️ Job cancelled", "info");
       (JStr "❌ Lie detection failed: Job cancelled by user", "error")].
Proof.
  destruct (proj2 (pipeline_failed_or_cancelled Launch.LieDetection "lie-detection"
                     (JObj [("job_id", JStr "j7")])
                     (JObj [("status", JStr "cancelled")])
                     [] (Pipeline.mkSession (Launch.mkApp ∅ Stream.init) ∅)
                     ltac:(done) eq_refl) eq_refl)
    as (s' & Hrun & Hres & Hprog & _).
  exists s'. by repeat split.
Defined.

Section PipelineGivesUp.

Import Stream Pipeline.
Local Open Scope list_scope.

Lemma await_run p st es1 es2 :
  promises (run st es1) !! p = Some Pending ->
  (p < length (promises st))%nat ->
  await p st (es1 ++ es2) = await p (run st es1) es2.
Proof.
  revert st. induction es1 as [|e es1 IH]; intros st Hend Hlt; [done|].
  assert (promises st !! p = Some Pending) as Hp.
  { by apply (pending_before st [] (e :: es1)). }
  change ((e :: es1) ++ es2) with (e :: (es1 ++ es2)).
  rewrite (await_pending _ _ _ _ Hp), run_cons. apply IH.
  - by rewrite run_cons in Hend.
  - pose proof (promises_grow st [e]) as Hgrow. simpl in Hgrow. lia.
Qed.

(** The channel of a call and the three reopened ones fail: the promise
    is pending up to the fourth failure, which rejects it. *)
Lemma four_failures st0 C T P j em ds0 ds1 ds2 ds3 :
  channels st0 = C ++ [mkChannel (mkClosure j em 0 (length P)) false] ->
  timers st0 = T ->
  promises st0 = P ++ [Pending] ->
  Forall (fun d => terminal (get "status" d) = false) ds0 ->
  Forall (fun d => terminal (get "status" d) = false) ds1 ->
  Forall (fun d => terminal (get "status" d) = false) ds2 ->
  Forall (fun d => terminal (get "status" d) = false) ds3 ->
  let c := length C in
  let t := length T in
  let body :=
    (frames c ds0 ++ [Failure c; Timeout t]) ++
    (frames (c + 1) ds1 ++ [Failure (c + 1); Timeout (t + 1)]) ++
    (frames (c + 2) ds2 ++ [Failure (c + 2); Timeout (t + 2)]) ++
    frames (c + 3) ds3 in
  promises (run st0 body) = P ++ [Pending] /\
  promises (step (run st0 body) (Failure (c + 3)))
  = P ++ [Rejected (new_Error "Stream connection failed after retries")].
Proof.
  intros HC0 HT0 HP0 H0 H1 H2 H3 c t body.
  destruct (failing_round st0 _ _ _ _ _ _ ds0 HC0 HT0
              ltac:(unfold maxReconnects; lia) H0) as (HC1 & HT1 & HP1 & _).
  fold c t in HC1, HT1, HP1. set (s1 := run st0 _) in *.
  destruct (failing_round s1 _ _ _ _ _ _ ds1 HC1 HT1
              ltac:(unfold maxReconnects; lia) H1) as (HC2 & HT2 & HP2 & _).
  rewrite !length_app in HC2, HT2, HP2. cbn [length] in HC2, HT2, HP2.
  fold c t in HC2, HT2, HP2. set (s2 := run s1 _) in *.
  destruct (failing_round s2 _ _ _ _ _ _ ds2 HC2 HT2
              ltac:(unfold maxReconnects; lia) H2) as (HC3 & HT3 & HP3 & _).
  rewrite !length_app in HC3, HT3, HP3. cbn [length] in HC3, HT3, HP3.
  fold c t in HC3, HT3, HP3. set (s3 := run s2 _) in *.
  rewrite HP2, HP1, HP0 in HP3.
  destruct (failing_last s3 _ _ _ _ _ ds3 HC3 HP3
              ltac:(unfold maxReconnects; lia) H3) as (_ & _ & HP4 & _).
  rewrite !length_app in HP4. cbn [length] in HP4. fold c in HP4.
  replace (c + 1 + 1 + 1)%nat with (c + 3)%nat in HP4 by lia.
  assert (run st0 body = run s3 (frames (c + 3) ds3)) as Hbody.
  { unfold body.
    replace (c + 2)%nat with (c + 1 + 1)%nat by lia.
    replace (t + 2)%nat with (t + 1 + 1)%nat by lia.
    rewrite (run_app st0). fold s1.
    rewrite (run_app s1). fold s2.
    by rewrite (run_app s2). }
  split.
  - rewrite Hbody. destruct (frames_quiet s3 (c + 3) ds3 H3) as (-> & _). done.
  - rewrite Hbody. rewrite run_app in HP4. exact HP4.
Qed.

End PipelineGivesUp.

(** X8: a pipeline whose start request is accepted and whose stream fails
    on the first channel and on each of the three reopened ones.  The
    [run...] function rethrows 'Stream connection failed after retries'
    right after the fourth failure; no result property changes; the last
    progress line is the error line of the [catch] block; and
    [processContent] shows that text in the error section. *)
Theorem pipeline_gives_up
    (k : Launch.pipeline) (type : string) (data : json)
    (ds0 ds1 ds2 ds3 : list json) (rest : list Stream.event) (s : Pipeline.Session) :
  let quiet := Forall (fun d => Stream.terminal (get "status" d) = false) in
  data <> JNull ->
  quiet ds0 -> quiet ds1 -> quiet ds2 -> quiet ds3 ->
  let before := Launch.streams (Pipeline.app s) in
  let lost :=
    tail (Stream.failing_call before (Launch.template (get "job_id" data))
            (Launch.stream_emoji k) ds0 ds1 ds2 ds3) in
  let error := new_Error "Stream connection failed after retries" in
  exists s',
    Pipeline.run_pipeline k (Launch.Response true (inr data)) (lost ++ rest)%list s
    = Some (Some error, s', rest) /\
    Pipeline.results s' = Pipeline.results s /\
    last (Stream.progress (Launch.streams (Pipeline.app s')))
    = Some (JStr (Launch.catch_label k +:+ "Stream connection failed after retries"),
            "error") /\
    Pipeline.processContent_end type (Some error)
    = Pipeline.ErrorShown "Stream connection failed after retries".
Proof.
  intros quiet Hdata H0 H1 H2 H3 before lost error.
  unfold Pipeline.run_pipeline. rewrite (run_start_accepted _ _ _ Hdata).
  cbn [Launch.streams]. fold before.
  set (j := Launch.template (get "job_id" data)) in *.
  set (st0 := Stream.streamJobProgress _ _ _ _).
  set (c := length (Stream.channels before)).
  set (t := length (Stream.timers before)).
  destruct (four_failures st0 (Stream.channels before) (Stream.timers before)
              (Stream.promises before) j (Launch.stream_emoji k)
              ds0 ds1 ds2 ds3 eq_refl eq_refl eq_refl H0 H1 H2 H3)
    as [Hpending Hrejected].
  fold c t in Hpending, Hrejected.
  set (body := ((Stream.frames c ds0 ++ _) ++ _)%list) in *.
  assert ((lost ++ rest)%list = (body ++ Stream.Failure (c + 3) :: rest)%list) as ->.
  { unfold lost, Stream.failing_call, body. cbn [tail]. fold c t.
    by rewrite <- !app_assoc. }
  rewrite await_run; cycle 1.
  { rewrite Hpending. by apply list_lookup_middle. }
  { simpl. rewrite length_app. simpl. lia. }
  rewrite await_pending by (rewrite Hpending; by apply list_lookup_middle).
  rewrite (await_settled _ _ _ (Rejected error));
    [|rewrite Hrejected; by apply list_lookup_middle|done].
  eexists. split; [reflexivity|]. cbn [Pipeline.results Pipeline.app Launch.streams].
  split; [done|]. split; [|reflexivity].
  simpl. apply last_snoc.
Qed.

Lemma pipeline_gives_up_witness :
  exists s',
    Pipeline.run_pipeline Launch.FactCheck
      (Launch.Response true (inr (JObj [("job_id", JStr "j7")])))
      (tail (Samples.always_failing "j7" "🔎"))
      (Pipeline.mkSession (Launch.mkApp ∅ Stream.init) ∅)
    = Some (Some (new_Error "Stream connection failed after retries"), s', []) /\
    Pipeline.results s' = ∅.
Proof.
  destruct (pipeline_gives_up Launch.FactCheck "text" (JObj [("job_id", JStr "j7")])
              [] [] [] [] [] (Pipeline.mkSession (Launch.mkApp ∅ Stream.init) ∅)
              ltac:(done) ltac:(constructor) ltac:(constructor)
              ltac:(constructor) ltac:(constructor))
    as (s' & Hrun & Hres & _).
  exists s'. split; [exact Hrun|exact Hres].
Defined.

(** ** The analyze button *)

(** X9: [handleAnalyze] hands [processContent] content that is not empty
    and one of the six types for which [processContent] has a pipeline and
    [displayCombinedResults] a tab; and for every type whatever, the one
    has a pipeline exactly when the other has a tab. *)
Theorem analyze_starts_known_pipelines
    (new_URL : string -> Error + URL) (hasHTMLLinks : value -> bool)
    (mode content url : string) (fetched : Error + value) :
  (forall c type,
     Analyze.handleAnalyze new_URL hasHTMLLinks mode content url fetched
     = Analyze.Process c type ->
     truthy c = true /\
     exists k tab,
       Pipeline.pipeline_of type = Some k /\ Pipeline.result_tab type = Some tab) /\
  (forall type,
     is_Some (Pipeline.pipeline_of type) <-> is_Some (Pipeline.result_tab type)).
Proof.
  split.
  - intros c type. unfold Analyze.handleAnalyze.
    destruct (if _ && _ && _ then fetched else _) as [e|c']; [done|].
    destruct (truthy c') eqn:Hc; simpl; [|done].
    repeat match goal with
      | |- context [if ?b then _ else _] => destruct b
      end; intros [= <- <-]; (split; [done|]); by eexists _, _.
  - intros type. unfold Pipeline.pipeline_of, Pipeline.result_tab.
    repeat match goal with
      | |- context [String.eqb ?a ?b] => destruct (String.eqb a b)
      end; split; intros [x Hx]; try done; by eexists.
Qed.

(** ** Fetching an article *)

Section FetchArticle.

Variable trim : string -> string.
Variable utf16_length : string -> Z.
Variable substring_0_40 : string -> string.
Variable toLocaleString : json -> Error + string.

Local Abbreviation present :=
  (Article.present trim utf16_length substring_0_40 toLocaleString).

(** A result the function accepts: [success] is truthy and [content] a
    string of at least 100 units once trimmed. *)
Definition sufficient (r : json) (s : string) : Prop :=
  truthy (get "success" r) = true /\
  get "content" r = Some (JStr s) /\
  s <> "" /\
  100 <= utf16_length (trim s).

(** What [present] hands back: thrown before the article is stored, thrown
    after, or returned. *)
Definition presented (r : json) (a : value)
    (X : (Error + Article.returned) * value * list Article.ui) : Prop :=
  match X with
  | (inl e, article, page) =>
      page = [] /\ (article = a \/ (article = Some r /\ exists s, sufficient r s))
  | (inr object, article, page) =>
      article = Some r /\
      (exists s, sufficient r s /\ Article.content object = Some (JStr s)) /\
      exists m, page = [Article.Status "success" m] \/
                exists card, page = [Article.Status "success" m; Article.Metadata card]
  end.

Lemma present_cases r a : presented r a (present r a).
Proof.
  unfold Article.present.
  destruct (truthy (get "success" r)) eqn:Hok; cbn [negb]; [|by (simpl; auto)].
  destruct (get "content" r) as [c|] eqn:Hc; [|by (simpl; auto)].
  destruct c as [|b|n|s|items|props];
    try by (cbn [truthy];
            repeat match goal with
              | |- context [if ?b then _ else _] => destruct b
              end; simpl; auto).
  destruct (String.eqb s "") eqn:Hs; cbn [orb]; [by (simpl; auto)|].
  destruct (utf16_length (trim s) <? 100) eqn:Hlen; [by (simpl; auto)|].
  assert (sufficient r s) as Hsuff.
  { split; [done|]. split; [done|]. split; [|lia].
    intros ->. by rewrite String.eqb_refl in Hs. }
  assert (forall e, presented r a (inl e, Some r, [])) as Hlate.
  { intros e. simpl. by eauto. }
  destruct (get "content_length" r) as [n|]; [|by apply Hlate].
  destruct n as [|b|n|n|items|props]; [by apply Hlate| | | | |];
    (destruct (toLocaleString _) as [e|charCount]; [by apply Hlate|];
     destruct (get "title" r) as [[|tb|tn|ts|titems|tprops]|];
     cbn [truthy]; repeat (match goal with
       | |- context [if ?b then _ else _] => destruct b
       end; try by apply Hlate);
     try (by apply Hlate);
     unfold presented; cbv beta iota; (split; [done|]);
     (split; [exists s; split; [exact Hsuff|reflexivity]|]);
     eexists; (by left) || (right; by eexists)).
Qed.

Lemma on_progress_loading (log : list json) (x : Article.ui) :
  x ∈ concat (map Article.on_progress log) ->
  exists m, x = Article.Status "loading" m.
Proof.
  induction log as [|entry log IH]; simpl.
  - by intros ?%elem_of_nil.
  - intros [Hx|Hx]%elem_of_app; [|by apply IH].
    unfold Article.on_progress in Hx.
    destruct (truthy (Some entry) && truthy (get "message" entry));
      [|by apply elem_of_nil in Hx].
    destruct (get "message" entry); [|by apply elem_of_nil in Hx].
    apply list_elem_of_singleton in Hx. by eexists.
Qed.

End FetchArticle.

(** With every request answered, what the page has been told when the call
    ends. *)
Lemma fetch_article_page
    (trim : string -> string) (utf16_length : string -> Z)
    (substring_0_40 : string -> string) (toLocaleString : json -> Error + string)
    (start : Launch.http) (backend : nat -> Poll.reply) (now : Z)
    (lastFetchedArticle : value) :
  exists outcome article page,
    Article.fetchArticleFromUrl trim utf16_length substring_0_40 toLocaleString
      start backend now lastFetchedArticle
    = Some (outcome, article, page) /\
    head page = Some (Article.Status "loading" (JStr "Starting article fetch...")) /\
    match outcome with
    | inl e => last page = Some (Article.Status "error" (JStr (message e)))
    | inr _ =>
        (exists m, Article.Status "success" m ∈ page) /\
        forall m, Article.Status "error" m ∉ page
    end.
Proof.
  unfold Article.fetchArticleFromUrl.
  destruct (Launch.fetch_start start) as [e|jobId].
  { eexists _, _, _. split; [reflexivity|]. by split. }
  destruct (pollJobCompletion_settles backend true 120000 now) as (p & w & -> & Hp).
  destruct p as [|result|e]; [done| |].
  2:{ eexists _, _, _. split; [reflexivity|]. split; [done|].
      rewrite !app_assoc. apply last_snoc. }
  destruct result as [r|].
  2:{ eexists _, _, _. split; [reflexivity|]. split; [done|]. apply last_snoc. }
  assert (forall e,
            last (([Article.Status "loading" (JStr "Starting article fetch...");
                    Article.Status "loading" (JStr "Scraping article content...")]
                     ++ concat (map Article.on_progress (Poll.delivered w)))
                    ++ [Article.Status "error" (JStr (message e))])
            = Some (Article.Status "error" (JStr (message e)))) as Hlast.
  { intros e. apply last_snoc. }
  pose proof (present_cases trim utf16_length substring_0_40 toLocaleString
                r lastFetchedArticle) as Hcases.
  destruct r as [|b|n|s|items|props];
    [eexists _, _, _; split; [reflexivity|]; split; [done|]; apply Hlast|..].
  all: destruct (Article.present _ _ _ _ _ _) as [[[e|object] article] page];
    eexists _, _, _; (split; [reflexivity|]); (split; [done|]).
  all: try (destruct Hcases as [-> _]; apply Hlast).
  all: destruct Hcases as (_ & _ & m & Hpage); split.
  all: try (exists m; apply elem_of_app; right;
            destruct Hpage as [->|[card ->]]; by apply elem_of_cons; left).
  all: intros m' Hin; apply elem_of_app in Hin as [Hin|Hin];
    [ change ([?a; ?b] ++ ?l)%list with (a :: b :: l) in Hin;
      apply elem_of_cons in Hin as [?|Hin]; [done|];
      apply elem_of_cons in Hin as [?|Hin]; [done|];
      by apply on_progress_loading in Hin as [? ?]
    | destruct Hpage as [->|[card ->]];
      repeat (apply elem_of_cons in Hin as [?|Hin]; [done|]);
      by apply elem_of_nil in Hin ].
Qed.

(** X10: whenever [fetchArticleFromUrl] has ended, the page tells how.
    The first status shown is the loading one; when the call has thrown,
    the last status shown is the error one with the message of the
    exception thrown; when it has returned, the success status has been
    shown and no error status at all. *)
Theorem fetch_article_reports_its_end
    (trim : string -> string) (utf16_length : string -> Z)
    (substring_0_40 : string -> string) (toLocaleString : json -> Error + string)
    (start : Launch.http) (backend : nat -> Poll.reply) (now : Z)
    (lastFetchedArticle : value)
    (outcome : Error + Article.returned) (article : value) (page : list Article.ui) :
  Article.fetchArticleFromUrl trim utf16_length substring_0_40 toLocaleString
    start backend now lastFetchedArticle
  = Some (outcome, article, page) ->
  head page = Some (Article.Status "loading" (JStr "Starting article fetch...")) /\
  match outcome with
  | inl e => last page = Some (Article.Status "error" (JStr (message e)))
  | inr _ =>
      (exists m, Article.Status "success" m ∈ page) /\
      forall m, Article.Status "error" m ∉ page
  end.
Proof.
  intros H.
  destruct (fetch_article_page trim utf16_length substring_0_40 toLocaleString
              start backend now lastFetchedArticle)
    as (outcome' & article' & page' & H' & Hhead & Hend).
  rewrite H in H'. injection H' as <- <- <-. by split.
Qed.

Lemma fetch_article_reports_its_end_witness :
  let thrown :=
    mkErr "TypeError"
          "Cannot read properties of undefined (reading 'toLocaleString')" in
  let page :=
    [Article.Status "loading" (JStr "Starting article fetch...");
     Article.Status "loading" (JStr "Scraping article content...");
     Article.Status "error" (JStr (message thrown))] in
  Article.fetchArticleFromUrl id (fun s => Z.of_nat (String.length s)) id
    (fun n => inr (to_string n))
    (Launch.Response true (inr (JObj [("job_id", JStr "j1")])))
    (Cases.scraped Cases.article_without_length) 0 (Some JNull)
  = Some (inl thrown, Some Cases.article_without_length, page) /\
  last page = Some (Article.Status "error" (JStr (message thrown))).
Proof.
  intros thrown page. split; [reflexivity|].
  exact (proj2 (fetch_article_reports_its_end
                  id (fun s => Z.of_nat (String.length s)) id
                  (fun n => inr (to_string n))
                  (Launch.Response true (inr (JObj [("job_id", JStr "j1")])))
                  (Cases.scraped Cases.article_without_length) 0 (Some JNull)
                  (inl thrown) (Some Cases.article_without_length) page
                  eq_refl)).
Defined.

(** What a call does to [lastFetchedArticle], and what it returns. *)
Lemma fetch_article_store
    (trim : string -> string) (utf16_length : string -> Z)
    (substring_0_40 : string -> string) (toLocaleString : json -> Error + string)
    (start : Launch.http) (backend : nat -> Poll.reply) (now : Z)
    (lastFetchedArticle : value) :
  match Article.fetchArticleFromUrl trim utf16_length substring_0_40 toLocaleString
          start backend now lastFetchedArticle with
  | Some (outcome, article, page) =>
      (article = lastFetchedArticle \/
       exists r s w,
         article = Some r /\
         Poll.pollJobCompletion backend true 120000 now
         = Some (Resolved (Some r), w) /\
         sufficient trim utf16_length r s) /\
      (forall object,
         outcome = inr object ->
         exists r s,
           article = Some r /\ sufficient trim utf16_length r s /\
           Article.content object = Some (JStr s) /\
           truthy (Article.content object) = true)
  | None => False
  end.
Proof.
  unfold Article.fetchArticleFromUrl.
  destruct (Launch.fetch_start start) as [e|jobId]; [split; [by left|done]|].
  destruct (pollJobCompletion_settles backend true 120000 now) as (p & w & Hpoll & Hp).
  rewrite Hpoll.
  destruct p as [|result|e]; [done| |split; [by left|done]].
  destruct result as [r|]; [|split; [by left|done]].
  pose proof (present_cases trim utf16_length substring_0_40 toLocaleString
                r lastFetchedArticle) as Hcases.
  destruct r as [|b|n|s|items|props]; [split; [by left|done]|..].
  all: destruct (Article.present _ _ _ _ _ _) as [[[e|object] article] page].
  all: try (destruct Hcases as [_ [->|[-> [s' Hs']]]];
            (split; [|done]); [by left|right; by eexists _, s', w]).
  all: destruct Hcases as (-> & (s' & Hs' & Hcontent) & _);
    (split; [right; by eexists _, s', w|]);
    intros ? [= <-]; eexists _, s'; (split; [done|]); (split; [done|]);
    (split; [done|]); rewrite Hcontent; cbn [truthy];
    destruct Hs' as (_ & _ & Hne & _);
    by destruct (String.eqb_spec s' "").
Qed.

(** X11: [lastFetchedArticle] is left as it was or becomes the result of
    the scrape job, and this only for a result whose [success] is truthy and
    whose [content] is a string of at least 100 units once trimmed; whenever
    the call returns, the article has been stored and the [content]
    returned is that string, which is not empty. *)
Theorem fetch_article_stores_accepted_results
    (trim : string -> string) (utf16_length : string -> Z)
    (substring_0_40 : string -> string) (toLocaleString : json -> Error + string)
    (start : Launch.http) (backend : nat -> Poll.reply) (now : Z)
    (lastFetchedArticle : value) :
  match Article.fetchArticleFromUrl trim utf16_length substring_0_40 toLocaleString
          start backend now lastFetchedArticle with
  | Some (outcome, article, page) =>
      (article = lastFetchedArticle \/
       exists r s w,
         article = Some r /\
         Poll.pollJobCompletion backend true 120000 now
         = Some (Resolved (Some r), w) /\
         sufficient trim utf16_length r s) /\
      (forall object,
         outcome = inr object ->
         exists r s,
           article = Some r /\ sufficient trim utf16_length r s /\
           Article.content object = Some (JStr s) /\
           truthy (Article.content object) = true)
  | None => False
  end.
Proof.
  apply fetch_article_store.
Qed.

(** X12: when the job's result is acceptable but has no [content_length]
    ([undefined] or [null]), the call throws a TypeError and shows it as the
    error status -- and the article has been stored all the same:
    [getLastFetchedCredibility] answers with its credibility from then
    on. *)
Theorem fetch_article_stored_though_thrown
    (trim : string -> string) (utf16_length : string -> Z)
    (substring_0_40 : string -> string) (toLocaleString : json -> Error + string)
    (start : Launch.http) (backend : nat -> Poll.reply) (now : Z)
    (lastFetchedArticle jobId : value) (w : Poll.world) (r : json) (s : string) :
  Launch.fetch_start start = inr jobId ->
  Poll.pollJobCompletion backend true 120000 now = Some (Resolved (Some r), w) ->
  sufficient trim utf16_length r s ->
  get "content_length" r = None \/ get "content_length" r = Some JNull ->
  exists e page,
    Article.fetchArticleFromUrl trim utf16_length substring_0_40 toLocaleString
      start backend now lastFetchedArticle
    = Some (inl e, Some r, page) /\
    name e = "TypeError" /\
    last page = Some (Article.Status "error" (JStr (message e))) /\
    Article.getLastFetchedCredibility (Some r)
    = if truthy (get "credibility" r) then get "credibility" r else Some JNull.
Proof.
  intros Hstart Hpoll (Hok & Hcontent & Hne & Hlen) Hnone.
  unfold Article.fetchArticleFromUrl. rewrite Hstart, Hpoll.
  assert (Article.present trim utf16_length substring_0_40 toLocaleString
            r lastFetchedArticle
          = (inl (Article.undefined_property "toLocaleString"), Some r, []) \/
          Article.present trim utf16_length substring_0_40 toLocaleString
            r lastFetchedArticle
          = (inl (null_property "toLocaleString"), Some r, [])) as Hpresent.
  { unfold Article.present. rewrite Hok, Hcontent. cbn [negb].
    destruct (String.eqb_spec s ""); [done|]. cbn [orb].
    destruct (Z.ltb_spec (utf16_length (trim s)) 100); [lia|].
    destruct Hnone as [-> | ->]; [by left|by right]. }
  assert (exists props, r = JObj props) as [props ->].
  { destruct r; try done. by eexists. }
  destruct Hpresent as [-> | ->]; eexists _, _;
    (split; [reflexivity|]); (split; [done|]); (split; [|done]);
    rewrite !app_assoc; apply last_snoc.
Qed.

Lemma fetch_article_stored_though_thrown_witness :
  exists e page,
    Article.fetchArticleFromUrl id (fun s => Z.of_nat (String.length s)) id
      (fun n => inr (to_string n))
      (Launch.Response true (inr (JObj [("job_id", JStr "j1")])))
      (Cases.scraped Cases.article_without_length) 0 (Some JNull)
    = Some (inl e, Some Cases.article_without_length, page) /\
    name e = "TypeError" /\
    Article.getLastFetchedCredibility (Some Cases.article_without_length)
    = Some (JObj [("tier", JNum 2)]).
Proof.
  destruct (fetch_article_stored_though_thrown
              id (fun s => Z.of_nat (String.length s)) id
              (fun n => inr (to_string n))
              (Launch.Response true (inr (JObj [("job_id", JStr "j1")])))
              (Cases.scraped Cases.article_without_length) 0 (Some JNull)
              (Some (JStr "j1"))
              (Poll.mkWorld 20 1 [] []) Cases.article_without_length
              Cases.article_text)
    as (e & page & Hrun & Hname & _ & Hcred).
  - reflexivity.
  - reflexivity.
  - repeat split; [done|vm_compute; discriminate].
  - by left.
  - exists e, page. split; [exact Hrun|]. split; [exact Hname|exact Hcred].
Defined.

(** X13: [handleAnalyze] with a valid URL and no pasted content fetches the
    article, and either the fetch throws and the error shown is
    'Failed to fetch article: ' followed by the message of the exception,
    or the fetch returns and then no error is shown: the content returned
    always passes the emptiness test that follows. *)
Theorem analyze_after_fetch
    (new_URL : string -> Error + URL) (hasHTMLLinks : value -> bool)
    (trim : string -> string) (utf16_length : string -> Z)
    (substring_0_40 : string -> string) (toLocaleString : json -> Error + string)
    (mode url : string)
    (start : Launch.http) (backend : nat -> Poll.reply) (now : Z)
    (lastFetchedArticle : value) :
  url <> "" ->
  Analyze.valid new_URL url = true ->
  exists outcome article page,
    Article.fetchArticleFromUrl trim utf16_length substring_0_40 toLocaleString
      start backend now lastFetchedArticle
    = Some (outcome, article, page) /\
    match outcome with
    | inl e =>
        Analyze.handleAnalyze new_URL hasHTMLLinks mode "" url (inl e)
        = Analyze.ShowError ("Failed to fetch article: " +:+ message e)
    | inr object =>
        forall text,
          Analyze.handleAnalyze new_URL hasHTMLLinks mode "" url
            (inr (Article.content object))
          <> Analyze.ShowError text
    end.
Proof.
  intros Hurl Hvalid.
  pose proof (fetch_article_store
                trim utf16_length substring_0_40 toLocaleString
                start backend now lastFetchedArticle) as Hstore.
  destruct (Article.fetchArticleFromUrl _ _ _ _ _ _ _ _)
    as [[[outcome article] page]|]; [|done].
  exists outcome, article, page. split; [done|].
  assert (negb (String.eqb url "") && Analyze.valid new_URL url && String.eqb "" ""
          = true) as Hfetching.
  { rewrite Hvalid. by destruct (String.eqb_spec url ""). }
  unfold Analyze.handleAnalyze. rewrite Hfetching.
  destruct outcome as [e|object]; [done|].
  destruct Hstore as [_ Hreturned].
  destruct (Hreturned object eq_refl) as (r & s & _ & _ & _ & ->).
  intros text. cbn [negb].
  repeat match goal with
    | |- context [if ?b then _ else _] => destruct b
    end; done.
Qed.

Lemma analyze_after_fetch_witness :
  exists outcome article page,
    Article.fetchArticleFromUrl id (fun s => Z.of_nat (String.length s)) id
      (fun n => inr (to_string n))
      (Launch.Response true (inr (JObj [("job_id", JStr "j1")])))
      (Cases.scraped Cases.article_with_length) 0 (Some JNull)
    = Some (outcome, article, page) /\
    match outcome with
    | inl e => False
    | inr object =>
        Analyze.handleAnalyze
          (fun s => inr {| protocol := "https:"; rest_of_url := s |})
          (fun _ => false) "bias-analysis" "" "https://example.org/a"
          (inr (Article.content object))
        = Analyze.Process (Some (JStr Cases.article_text)) "bias"
    end.
Proof.
  destruct (analyze_after_fetch
              (fun s => inr {| protocol := "https:"; rest_of_url := s |})
              (fun _ => false)
              id (fun s => Z.of_nat (String.length s)) id
              (fun n => inr (to_string n))
              "bias-analysis" "https://example.org/a"
              (Launch.Response true (inr (JObj [("job_id", JStr "j1")])))
              (Cases.scraped Cases.article_with_length) 0 (Some JNull))
    as (outcome & article & page & Hrun & _).
  - done.
  - reflexivity.
  - exists outcome, article, page. split; [exact Hrun|].
    vm_compute in Hrun. by injection Hrun as <- _ _.
Defined.

(** ** Failure and cancellation, from the job to the page *)



